(** * Cart upsells widget (assets/cart-upsells.js)

    A shallow embedding of the [CartUpsells] custom element: its private
    cache and abort handle, the part of the DOM it reads and writes, the
    network requests it issues, and the carousel it assembles.

    JavaScript runs the element on one thread.  An activation
    ([connectedCallback]) runs synchronously up to the first [await] of
    [#loadRecommendations]; what follows the [await]s runs later, as one
    continuation per issued request.  The model therefore has two kinds of
    events on one explicit state: [connectedCallback] and [settle].

    A string is the sequence of bytes of its UTF-8 encoding.  Every
    character the component itself looks for (the slash, the question
    mark, the digits, the signs) is one byte, and no byte of a longer
    character is one of them, so the functions below read a string the way
    JavaScript reads its code units. *)

From Stdlib Require Import ZArith Ascii String.
From stdpp Require Import base gmap strings list fin_maps pretty.

Open Scope string_scope.
Open Scope nat_scope.

(** ** JavaScript primitives used by the component *)
Module JS.

(** Truthiness of a string: only the empty string is falsy. *)
Definition truthy_string (s : string) : bool :=
  match s with
  | EmptyString => false
  | String _ _ => true
  end.

(** Truthiness of a value that is a string or [undefined]. *)
Definition truthy (v : option string) : bool :=
  match v with
  | Some s => truthy_string s
  | None => false
  end.

(** [v || d] for a string-or-undefined [v] and a string [d]. *)
Definition or_else (v : option string) (d : string) : string :=
  match v with
  | Some s => if truthy_string s then s else d
  | None => d
  end.

(** [s.startsWith(p)], returning what follows the prefix. *)
Fixpoint strip_prefix (p s : string) : option string :=
  match p, s with
  | EmptyString, _ => Some s
  | String a p', String b s' =>
      if Ascii.eqb a b then strip_prefix p' s' else None
  | String _ _, EmptyString => None
  end.

(** [s.includes(p)]. *)
Fixpoint includes (p s : string) : bool :=
  match strip_prefix p s with
  | Some _ => true
  | None =>
      match s with
      | EmptyString => false
      | String _ s' => includes p s'
      end
  end.

(** The longest prefix of [s] whose characters satisfy [f]. *)
Fixpoint take_while (f : Ascii.ascii → bool) (s : string) : string :=
  match s with
  | EmptyString => EmptyString
  | String c s' => if f c then String c (take_while f s') else EmptyString
  end.

Fixpoint drop_while (f : Ascii.ascii → bool) (s : string) : string :=
  match s with
  | EmptyString => EmptyString
  | String c s' => if f c then drop_while f s' else s
  end.

(** The white space and line terminators [parseInt] skips.  Those of one
    byte: TAB, LF, VT, FF, CR and space. *)
Definition white_space1 (a : Ascii.ascii) : bool :=
  let n := Ascii.nat_of_ascii a in
  (((9 <=? n) && (n <=? 13)) || (n =? 32))%nat.

(** The one of two bytes: U+00A0, the no-break space. *)
Definition white_space2 (a b : Ascii.ascii) : bool :=
  ((Ascii.nat_of_ascii a =? 194) && (Ascii.nat_of_ascii b =? 160))%nat.

(** Those of three bytes: U+1680, U+2000 to U+200A, U+2028, U+2029,
    U+202F, U+205F, U+3000 and U+FEFF. *)
Definition white_space3 (a b c : Ascii.ascii) : bool :=
  let x := Ascii.nat_of_ascii a in
  let y := Ascii.nat_of_ascii b in
  let z := Ascii.nat_of_ascii c in
  (((x =? 225) && (y =? 154) && (z =? 128))
   || ((x =? 226) && (y =? 128)
       && (((128 <=? z) && (z <=? 138)) || (z =? 168) || (z =? 169) || (z =? 175)))
   || ((x =? 226) && (y =? 129) && (z =? 159))
   || ((x =? 227) && (y =? 128) && (z =? 128))
   || ((x =? 239) && (y =? 187) && (z =? 191)))%nat.

(** [TrimString(s, start)]: [s] without its leading white space. *)
Fixpoint trim_start (s : string) : string :=
  match s with
  | EmptyString => s
  | String a r =>
      if white_space1 a then trim_start r
      else
        match r with
        | EmptyString => s
        | String b r2 =>
            if white_space2 a b then trim_start r2
            else
              match r2 with
              | EmptyString => s
              | String c r3 =>
                  if white_space3 a b c then trim_start r3 else s
              end
        end
  end.

(** The value of [c] as a digit of the given radix, if it is one. *)
Definition digit_value (radix : Z) (c : Ascii.ascii) : option Z :=
  let n := Z.of_nat (Ascii.nat_of_ascii c) in
  let v :=
    (if (48 <=? n) && (n <=? 57) then Some (n - 48)
     else if (97 <=? n) && (n <=? 122) then Some (n - 87)
     else if (65 <=? n) && (n <=? 90) then Some (n - 55)
     else None)%Z in
  match v with
  | Some d => if (d <? radix)%Z then Some d else None
  | None => None
  end.

(** Reads the longest prefix of radix digits; [acc] is [None] until a
    digit has been read. *)
Fixpoint parse_digits (radix : Z) (s : string) (acc : option Z) : option Z :=
  match s with
  | EmptyString => acc
  | String c s' =>
      match digit_value radix c with
      | Some d => parse_digits radix s' (Some (default 0 acc * radix + d)%Z)
      | None => acc
      end
  end.

(** [parseInt(s)] with no radix argument: leading white space, an
    optional sign, an optional [0x]/[0X] prefix selecting radix 16, then
    the longest run of digits.  [None] stands for [NaN].  The result is
    the exact integer; JavaScript rounds it to a double, which [slice]
    clamps to the same bound, rounding being monotone. *)
Definition parseInt (s : string) : option Z :=
  let s1 := trim_start s in
  let '(sign, s2) :=
    match s1 with
    | String "-"%char r => ((-1)%Z, r)
    | String "+"%char r => (1%Z, r)
    | _ => (1%Z, s1)
    end in
  let '(radix, s3) :=
    match s2 with
    | String "0"%char (String "x"%char r) => (16%Z, r)
    | String "0"%char (String "X"%char r) => (16%Z, r)
    | _ => (10%Z, s2)
    end in
  match parse_digits radix s3 None with
  | Some v => Some (sign * v)%Z
  | None => None
  end.

(** [l.slice(0, end)]: [NaN] counts as 0, a negative [end] counts from
    the end of the array, and the result is clamped to the array. *)
Definition slice0 {A} (l : list A) (end_ : option Z) : list A :=
  let len := Z.of_nat (length l) in
  let relative_end := default 0%Z end_ in
  let final :=
    if (relative_end <? 0)%Z then Z.max (len + relative_end) 0
    else Z.min relative_end len in
  take (Z.to_nat final) l.

(** [l.join(sep)] on an array of strings. *)
Fixpoint join (sep : string) (l : list string) : string :=
  match l with
  | [] => ""
  | [s] => s
  | s :: l' => s ++ sep ++ join sep l'
  end.

(** [String(n)] for an array index. *)
Definition number_to_string (n : nat) : string := pretty n.

End JS.

(** ** Data *)

Set Warnings "-register-all".

(** An element of the document: its tag, its attributes and its children.
    [RawHTML m] stands for the nodes the browser's HTML parser makes of the
    markup [m] at that place; the model does not say what they are, and
    they need not show the markup as written (a table row parsed inside a
    [div] loses its tags).  No query of the model looks inside them. *)
Inductive node :=
| Element (tag : string) (attrs : list (string * string)) (children : list node)
| RawHTML (markup : string).

(** [el.getAttribute(name)]. *)
Fixpoint lookup_attr (name : string) (attrs : list (string * string)) : option string :=
  match attrs with
  | [] => None
  | (k, v) :: attrs' => if String.eqb k name then Some v else lookup_attr name attrs'
  end.

Definition getAttribute (name : string) (n : node) : option string :=
  match n with
  | Element _ attrs _ => lookup_attr name attrs
  | RawHTML _ => None
  end.

Definition has_tag (t : string) (n : node) : bool :=
  match n with
  | Element t' _ _ => String.eqb t' t
  | RawHTML _ => false
  end.

(** [n.querySelectorAll(tag)] for a tag selector: the elements below [n]
    with that tag, in document order. *)
Fixpoint querySelectorAll (t : string) (n : node) : list node :=
  match n with
  | Element _ _ children =>
      flat_map (λ c,
        ((if has_tag t c then [c] else []) ++ querySelectorAll t c)%list)
        children
  | RawHTML _ => []
  end.

(** The [href] property of an element that the selector [a] matches.  On
    an HTML anchor it is a string, the resolved URL.  On an anchor of
    another namespace it is no string (an [SVGAnimatedString] on an SVG
    anchor), and calling [match] on it throws a [TypeError]. *)
Inductive href_property :=
| Url (resolved : string)
| NoString.

(** An [<a>] element of a response: its [href] attribute as written and
    its [href] property. *)
Record anchor := {
  attr_href : string;
  href : href_property;
}.

(** A [.resource-card] element of a response: the anchors below it that
    carry an [href] attribute, in document order, and its [outerHTML]. *)
Record card := {
  anchors : list anchor;
  outerHTML : string;
}.

(** A recommended product, as built by [#loadRecommendations]. *)
Record product := {
  id : option string;
  html : string;
}.

(** [this.dataset]: the [data-product-id], [data-url], [data-max-products]
    and [data-section-id] attributes; [None] is an absent attribute. *)
Record dataset := {
  productId : option string;
  url : option string;
  maxProducts : option string;
  sectionId : option string;
}.

(** The [.cart-upsells__content] element: its [hidden] flag and children. *)
Record region := {
  region_hidden : bool;
  region_children : list node;
}.

(** What [#renderProducts] reads from the surrounding document: the
    [dataset.productId] of the elements matching
    [.cart-items__table [data-product-id]] and of those matching
    [.product-card[data-product-id]], each in document order.  Every event
    that may render takes the page as it is at that moment: the ids are
    read afresh by each render, never kept. *)
Record page := {
  cart_table_ids : list string;
  product_card_ids : list string;
}.

(** A request issued with [fetch].  Its position in [network] stands for
    the [AbortController] created for it. *)
Record request := {
  req_url : string;
  req_aborted : bool;
  req_settled : bool;
}.

(** What [console.error] received. *)
Inductive logged :=
| ServerReturned (status : nat)
| Failure.

(** The element and what it touches.  [hidden] is the element's [hidden]
    attribute; [loadingEl] is the [hidden] flag of the
    [.cart-upsells__loading] child and [contentEl] the
    [.cart-upsells__content] child, [None] when the child does not exist.
    The closure of a pending load holds references to these same
    children, so one field serves every reader and writer. *)
Record widget := {
  cachedRecommendations : gmap string (list product);
  activeFetch : option nat;
  hidden : bool;
  data : dataset;
  loadingEl : option bool;
  contentEl : option region;
  network : list request;
  console : list logged;
}.

(** How a request comes back when it was not aborted: [fetch] or
    [response.text()] rejects, or a response arrives with its [ok] flag,
    its status and the [.resource-card] elements of its parsed body. *)
Inductive outcome :=
| Rejected
| Responded (ok : bool) (status : nat) (cards : list card).

(** *** Field updates *)

Definition set_cache (c : gmap string (list product)) (w : widget) : widget :=
  {| cachedRecommendations := c; activeFetch := activeFetch w;
     hidden := hidden w; data := data w; loadingEl := loadingEl w;
     contentEl := contentEl w; network := network w; console := console w |}.

Definition set_activeFetch (a : option nat) (w : widget) : widget :=
  {| cachedRecommendations := cachedRecommendations w; activeFetch := a;
     hidden := hidden w; data := data w; loadingEl := loadingEl w;
     contentEl := contentEl w; network := network w; console := console w |}.

Definition set_hidden (h : bool) (w : widget) : widget :=
  {| cachedRecommendations := cachedRecommendations w;
     activeFetch := activeFetch w;
     hidden := h; data := data w; loadingEl := loadingEl w;
     contentEl := contentEl w; network := network w; console := console w |}.

Definition set_data (d : dataset) (w : widget) : widget :=
  {| cachedRecommendations := cachedRecommendations w;
     activeFetch := activeFetch w;
     hidden := hidden w; data := d; loadingEl := loadingEl w;
     contentEl := contentEl w; network := network w; console := console w |}.

Definition set_loadingEl (l : option bool) (w : widget) : widget :=
  {| cachedRecommendations := cachedRecommendations w;
     activeFetch := activeFetch w;
     hidden := hidden w; data := data w; loadingEl := l;
     contentEl := contentEl w; network := network w; console := console w |}.

Definition set_contentEl (c : option region) (w : widget) : widget :=
  {| cachedRecommendations := cachedRecommendations w;
     activeFetch := activeFetch w;
     hidden := hidden w; data := data w; loadingEl := loadingEl w;
     contentEl := c; network := network w; console := console w |}.

Definition set_network (n : list request) (w : widget) : widget :=
  {| cachedRecommendations := cachedRecommendations w;
     activeFetch := activeFetch w;
     hidden := hidden w; data := data w; loadingEl := loadingEl w;
     contentEl := contentEl w; network := n; console := console w |}.

Definition set_console (l : list logged) (w : widget) : widget :=
  {| cachedRecommendations := cachedRecommendations w;
     activeFetch := activeFetch w;
     hidden := hidden w; data := data w; loadingEl := loadingEl w;
     contentEl := contentEl w; network := network w; console := l |}.

(** [if (el) el.hidden = h] on a child that may be missing. *)
Definition set_hidden_if_present (h : bool) (el : option bool) : option bool :=
  match el with
  | Some _ => Some h
  | None => None
  end.

Definition set_region_hidden (h : bool) (r : region) : region :=
  {| region_hidden := h; region_children := region_children r |}.

Definition abort_request (r : request) : request :=
  {| req_url := req_url r; req_aborted := true; req_settled := req_settled r |}.

Definition settle_request (r : request) : request :=
  {| req_url := req_url r; req_aborted := req_aborted r; req_settled := true |}.

(** ** The component *)

(** *** Building products from the response *)

(** The class [[^/?]] of the product pattern. *)
Definition is_handle_char (c : Ascii.ascii) : bool :=
  negb (Ascii.eqb c "/"%char) && negb (Ascii.eqb c "?"%char).

(** An attempt to match [\/products\/([^/?]+)] at the start of [s]; the
    group is greedy, so it is the longest run of handle characters. *)
Definition match_here (s : string) : option string :=
  match JS.strip_prefix "/products/" s with
  | Some rest =>
      match JS.take_while is_handle_char rest with
      | EmptyString => None
      | g => Some g
      end
  | None => None
  end.

(** [s.match(/\/products\/([^/?]+)/)?.[1]]: the group of the leftmost match. *)
Fixpoint match_product_id (s : string) : option string :=
  match match_here s with
  | Some g => Some g
  | None =>
      match s with
      | EmptyString => None
      | String _ s' => match_product_id s'
      end
  end.

(** [card.querySelector('a[href*="/products/"]')]. *)
Definition product_link (c : card) : option anchor :=
  List.find (λ a, JS.includes "/products/" (attr_href a)) (anchors c).

(** The callback of [productCards.map]; [None] when it throws. *)
Definition product_of_card (c : card) : option product :=
  match product_link c with
  | Some link =>
      match href link with
      | Url resolved =>
          Some {| id := match_product_id resolved; html := outerHTML c |}
      | NoString => None
      end
  | None => Some {| id := None; html := outerHTML c |}
  end.

(** [productCards.map(...)]: the products in the order of the cards;
    [None] when the callback throws on one of them, in which case nothing
    has been changed yet. *)
Definition products_of_cards (productCards : list card) : option (list product) :=
  mapM product_of_card productCards.

(** *** Filtering against the cart *)

(** One [forEach] pass adding the truthy ids to the set. *)
Definition add_ids (ids : list string) (acc : gset string) : gset string :=
  foldl (λ acc i, if JS.truthy_string i then {[ i ]} ∪ acc else acc) acc ids.

Definition cartItemIds (pg : page) : gset string :=
  add_ids (product_card_ids pg) (add_ids (cart_table_ids pg) ∅).

(** The callback of [products.filter]. *)
Definition keeps (ids : gset string) (p : product) : bool :=
  match id p with
  | None => true
  | Some s =>
      if negb (JS.truthy_string s) then true
      else negb (bool_decide (s ∈ ids))
  end.

Definition filteredProducts (ids : gset string) (products : list product) : list product :=
  List.filter (keeps ids) products.

(** [parseInt(this.dataset.maxProducts || 9)]. *)
Definition max_products (d : dataset) : option Z :=
  JS.parseInt (JS.or_else (maxProducts d) "9").

Definition productsToShow (d : dataset) (filtered : list product) : list product :=
  JS.slice0 filtered (max_products d).

(** *** Assembling the carousel *)

(** The template of one slide.  The component joins the templates into one
    string and lets the browser parse it inside a [div]; the model takes
    the elements that parse yields, one [slideshow-slide] per template,
    with what the parser makes of the product's markup inside the item
    (see [RawHTML]).  This takes it that the markup of a card, which is the
    serialization of a parsed element, does not swallow the templates that
    follow it. *)
Definition slide (index : nat) (p : product) : node :=
  Element "slideshow-slide"
    [("ref", "slides[]");
     ("aria-hidden", if (3 <=? index)%nat then "true" else "false");
     ("style", "view-timeline-name: --slide-" ++ JS.number_to_string index ++ ";");
     ("class", "resource-list__slide")]
    [Element "div" [("class", "resource-list__item")] [RawHTML (html p)]].

Definition slides (shown : list product) : list node := imap slide shown.

(** [#createArrows], parsed. *)
Definition createArrows : node := Element "slideshow-arrows" [] [].

Definition timeline (slideCount : nat) : string :=
  JS.join " " (map (λ i, "--slide-" ++ JS.number_to_string i) (seq 0 slideCount)).

Definition carousel (shown : list product) : node :=
  let slideCount := length shown in
  let needsArrows := (3 <? slideCount)%nat in
  let slidesContainer :=
    Element "slideshow-slides"
      [("tabindex", "-1"); ("ref", "scroller"); ("gutters", "start end")]
      (slides shown) in
  let container :=
    Element "slideshow-container" [("ref", "slideshowContainer")]
      ((if needsArrows then [createArrows] else []) ++ [slidesContainer])%list in
  let slideshow :=
    Element "slideshow-component"
      [("class", "resource-list__carousel");
       ("ref", "cartUpsellsCarousel");
       ("style", "--slideshow-timeline: " ++ timeline slideCount ++ ";");
       ("initial-slide", "0")]
      [container] in
  Element "div"
    [("class", "cart-upsells__carousel resource-list__carousel");
     ("style", "--gutter-slide-width: var(--padding-md); --slide-width-max: calc((100% - (2 * var(--gutter-slide-width))) / 3);")]
    [slideshow].

(** *** [#renderProducts] *)

Definition renderProducts (pg : page) (products : list product) (w : widget) : widget :=
  match products with
  | [] => set_hidden true w
  | _ :: _ =>
      match contentEl w with
      | None => w
      | Some r =>
          match filteredProducts (cartItemIds pg) products with
          | [] => set_hidden true w
          | filtered =>
              let shown := productsToShow (data w) filtered in
              set_contentEl
                (Some {| region_hidden := false;
                         region_children :=
                           (region_children r ++ [carousel shown])%list |})
                w
          end
      end
  end.

(** *** [#loadRecommendations], up to its first [await] *)

Definition fetchUrl (u p : string) (section : option string) : string :=
  u ++ "&product_id=" ++ p ++ "&section_id="
    ++ JS.or_else section "cart-upsells" ++ "&intent=" ++ "complementary".

(** [this.#activeFetch?.abort()]. *)
Definition abort_active (w : widget) : widget :=
  match activeFetch w with
  | Some i => set_network (alter abort_request i (network w)) w
  | None => w
  end.

(** [new AbortController()] followed by [fetch(fetchUrl, { signal })]. *)
Definition start_fetch (u : string) (w : widget) : widget :=
  set_network
    (network w ++ [{| req_url := u; req_aborted := false; req_settled := false |}])%list
    (set_activeFetch (Some (length (network w))) w).

(** The cache is a plain object, so a lookup also sees the properties every
    object inherits; a key always contains [&product_id=] and is none of
    them, which leaves the entries the component stored.  Every stored
    value is an array, hence truthy. *)
Definition loadRecommendations (pg : page) (w : widget) : widget :=
  let d := data w in
  match productId d, url d with
  | Some p, Some u =>
      if negb (JS.truthy_string p) || negb (JS.truthy_string u)
      then set_hidden true w
      else
        let cacheKey := fetchUrl u p (sectionId d) in
        match cachedRecommendations w !! cacheKey with
        | Some products => renderProducts pg products w
        | None =>
            let w1 := set_loadingEl (set_hidden_if_present false (loadingEl w)) w in
            let w2 := set_contentEl (set_region_hidden true <$> contentEl w1) w1 in
            start_fetch cacheKey (abort_active w2)
        end
  | _, _ => set_hidden true w
  end.

(** *** [connectedCallback] *)

Definition connectedCallback (pg : page) (w : widget) : widget :=
  if hidden w || negb (JS.truthy (productId (data w))) then w
  else loadRecommendations pg w.

(** *** [#loadRecommendations], after the [await]s *)

(** The [finally] block. *)
Definition finally (w : widget) : widget :=
  set_loadingEl (set_hidden_if_present true (loadingEl w))
    (set_activeFetch None w).

(** The [try] block after a response arrived, and the [catch] block for an
    error that is not an [AbortError]: a rejected [fetch], a status that is
    no success, or the [TypeError] of the [map] callback. *)
Definition respond (pg : page) (cacheKey : string) (o : outcome) (w : widget) : widget :=
  match o with
  | Rejected =>
      set_hidden true (set_console (console w ++ [Failure])%list w)
  | Responded false status _ =>
      set_hidden true (set_console (console w ++ [ServerReturned status])%list w)
  | Responded true _ [] => set_hidden true w
  | Responded true _ productCards =>
      match products_of_cards productCards with
      | Some products =>
          renderProducts pg products
            (set_cache (<[cacheKey := products]> (cachedRecommendations w)) w)
      | None =>
          set_hidden true (set_console (console w ++ [Failure])%list w)
      end
  end.

(** The continuation of request [i].  A request settles once; an aborted
    one rejects with an [AbortError], which the [catch] block lets pass;
    the [finally] block runs on every path. *)
Definition settle (pg : page) (i : nat) (o : outcome) (w : widget) : option widget :=
  match network w !! i with
  | None => None
  | Some r =>
      if req_settled r then None
      else
        let w0 := set_network (alter settle_request i (network w)) w in
        let w1 := if req_aborted r then w0 else respond pg (req_url r) o w0 in
        Some (finally w1)
  end.

(** The host page changing the element's [data-] attributes. *)
Definition setAttributes (d : dataset) (w : widget) : widget := set_data d w.

(** A freshly created element: empty cache, no request. *)
Definition created (d : dataset) (h : bool) (loading : option bool)
    (content : option region) : widget :=
  {| cachedRecommendations := ∅; activeFetch := None; hidden := h; data := d;
     loadingEl := loading; contentEl := content; network := []; console := [] |}.

(** ** Vocabulary of the specification *)

(** The specification's rule for the filter: a product is kept when its id
    is absent or is not the id of an item in the cart. *)
Definition kept (ids : gset string) (p : product) : Prop :=
  match id p with
  | None => True
  | Some s => s ∉ ids
  end.

#[global] Instance kept_dec ids p : Decision (kept ids p) :=
  match id p as o
    return Decision (match o with None => True | Some s => s ∉ ids end)
  with
  | None => left I
  | Some s => decide (s ∉ ids)
  end.

(** Decimal numerals, for the [data-max-products] attribute of a
    non-negative integer. *)
Inductive decimal_digit := D0 | D1 | D2 | D3 | D4 | D5 | D6 | D7 | D8 | D9.

Definition digit_char (d : decimal_digit) : Ascii.ascii :=
  match d with
  | D0 => "0" | D1 => "1" | D2 => "2" | D3 => "3" | D4 => "4"
  | D5 => "5" | D6 => "6" | D7 => "7" | D8 => "8" | D9 => "9"
  end%char.

Definition digit_nat (d : decimal_digit) : nat :=
  match d with
  | D0 => 0 | D1 => 1 | D2 => 2 | D3 => 3 | D4 => 4
  | D5 => 5 | D6 => 6 | D7 => 7 | D8 => 8 | D9 => 9
  end.

Definition digit_of_nat (n : nat) : decimal_digit :=
  match n with
  | 0 => D0 | 1 => D1 | 2 => D2 | 3 => D3 | 4 => D4
  | 5 => D5 | 6 => D6 | 7 => D7 | 8 => D8 | _ => D9
  end.

Definition numeral (ds : list decimal_digit) : string :=
  foldr (λ d s, String (digit_char d) s) EmptyString ds.

Definition numeral_value (ds : list decimal_digit) : nat :=
  foldl (λ acc d, 10 * acc + digit_nat d) 0 ds.

(** The number of navigation arrows and the slides of a carousel. *)
Definition arrows (c : node) : list node := querySelectorAll "slideshow-arrows" c.
Definition slides_of (c : node) : list node := querySelectorAll "slideshow-slide" c.

(** The requests issued so far for a cache key. *)
Definition requests_for (k : string) (w : widget) : nat :=
  length (List.filter (λ r, String.eqb (req_url r) k) (network w)).

(** ** Sample inputs *)
Module Sample.

Definition recs (item : string) (cap : option string) : dataset :=
  {| productId := Some item; url := Some "/recs?v=1";
     maxProducts := cap; sectionId := None |}.

Definition key (item : string) : string :=
  fetchUrl "/recs?v=1" item None.

Definition empty_cart : page :=
  {| cart_table_ids := []; product_card_ids := [] |}.

Definition cart_with (ids : list string) : page :=
  {| cart_table_ids := ids; product_card_ids := [] |}.

Definition card_for (handle : string) : card :=
  {| anchors := [{| attr_href := "/products/" ++ handle;
                    href := Url ("https://shop.example/products/" ++ handle
                                   ++ "?variant=7") |}];
     outerHTML := "<div class='resource-card'>" ++ handle ++ "</div>" |}.

Definition hat : product :=
  {| id := Some "hat"; html := "<div class='resource-card'>hat</div>" |}.

(** An element with both children, the loading indicator and the content
    region hidden, nothing rendered. *)
Definition fresh (d : dataset) : widget :=
  created d false (Some true)
    (Some {| region_hidden := true; region_children := [] |}).

(** The same element without a content region. *)
Definition without_content (d : dataset) : widget :=
  created d false (Some true) None.

(** An element without [data-product-id], and one without [data-url]. *)
Definition no_item : widget :=
  fresh {| productId := None; url := Some "/recs?v=1";
           maxProducts := None; sectionId := None |}.

Definition no_url : widget :=
  fresh {| productId := Some "123"; url := None;
           maxProducts := None; sectionId := None |}.

(** One activation: request 0 is in flight. *)
Definition loading : widget :=
  connectedCallback empty_cart (fresh (recs "123" None)).


(** Request 0 came back with one card, which was rendered. *)
Definition rendered : option widget :=
  settle empty_cart 0 (Responded true 200 [card_for "hat"]) loading.

(** Then the item changes and a second request starts; then the item
    changes back while that request is in flight, and the element is
    activated a third time. *)
Definition rerendered : option widget :=
  w ← rendered;
  let w3 := connectedCallback empty_cart (setAttributes (recs "456" None) w) in
  Some (connectedCallback empty_cart (setAttributes (recs "123" None) w3)).

(** An element capped at zero products, one request in flight. *)
Definition loading_capped_at_zero : widget :=
  connectedCallback empty_cart (fresh (recs "123" (Some "0"))).

(** Request 0 is in flight for item 123 when the item changes to 456 and
    the element is activated again: request 0 is aborted, request 1
    starts. *)
Definition superseded : widget :=
  connectedCallback empty_cart (setAttributes (recs "456" None) loading).

End Sample.

(** ** Runs of the element *)

(** What can happen to the element: it is attached to the document, a
    request comes back, or the host page changes its [data-] attributes. *)
Inductive event :=
| Activate (pg : page)
| Settle (pg : page) (i : nat) (o : outcome)
| SetAttributes (d : dataset).

Definition step (e : event) (w : widget) : option widget :=
  match e with
  | Activate pg => Some (connectedCallback pg w)
  | Settle pg i o => settle pg i o w
  | SetAttributes d => Some (setAttributes d w)
  end.

(** A sequence of events; [None] when it asks a request to come back that
    was never issued or has come back already. *)
Fixpoint run (es : list event) (w : widget) : option widget :=
  match es with
  | [] => Some w
  | e :: es' =>
      match step e w with
      | Some w' => run es' w'
      | None => None
      end
  end.

(** The content region of [b] holds what that of [a] holds, and perhaps
    more after it; the region exists in both or in neither. *)
Definition region_extends (a b : option region) : Prop :=
  match a, b with
  | None, None => True
  | Some r, Some r' => region_children r `prefix_of` region_children r'
  | _, _ => False
  end.

(** A request that is in flight and was not aborted. *)
Definition live (r : request) : Prop :=
  req_settled r = false ∧ req_aborted r = false.

(** A request that came back without having been aborted. *)
Definition answered (r : request) : Prop :=
  req_settled r = true ∧ req_aborted r = false.

(** What holds of the cache, the handle and the requests in every state
    the element reaches. *)
Definition cache_justified (w : widget) : Prop :=
  ∀ k ps, cachedRecommendations w !! k = Some ps →
    ps ≠ []
    ∧ (∃ cards, products_of_cards cards = Some ps)
    ∧ ∃ i r, network w !! i = Some r ∧ req_url r = k ∧ answered r.

Definition handle_is_last_live (w : widget) : Prop :=
  ∀ i, activeFetch w = Some i →
    S i = length (network w) ∧ ∃ r, network w !! i = Some r ∧ live r.

Definition urls_well_formed (w : widget) : Prop :=
  ∀ r, r ∈ network w →
    ∃ u p section,
      JS.truthy_string u = true ∧ JS.truthy_string p = true
      ∧ req_url r = fetchUrl u p section.

Definition consistent (w : widget) : Prop :=
  cache_justified w ∧ handle_is_last_live w ∧ urls_well_formed w.


(** Every character of [s] satisfies [f]. *)
Fixpoint string_forall (f : Ascii.ascii → bool) (s : string) : bool :=
  match s with
  | EmptyString => true
  | String c s' => f c && string_forall f s'
  end.

(** [s] is empty or begins with a character that does not satisfy [f]. *)
Definition stops (f : Ascii.ascii → bool) (s : string) : bool :=
  match s with
  | EmptyString => true
  | String c _ => negb (f c)
  end.

(** A character of one byte that [parseInt] cannot begin a number with:
    neither white space, nor a sign, nor a decimal digit. *)
Definition starts_no_number (c : Ascii.ascii) : bool :=
  (Ascii.nat_of_ascii c <? 128)
  && negb (JS.white_space1 c)
  && negb (Ascii.eqb c "-"%char) && negb (Ascii.eqb c "+"%char)
  && match JS.digit_value 10 c with Some _ => false | None => true end.

(** Further sample inputs. *)
Module Trace.

(** Request 0 came back with a server error. *)
Definition failed : event :=
  Settle Sample.empty_cart 0 (Responded false 500 []).

(** One activation, the response with two cards, a change of item, a
    second activation, and the first item again, served from the cache. *)
Definition browse : list event :=
  [Activate Sample.empty_cart;
   Settle Sample.empty_cart 0
     (Responded true 200 [Sample.card_for "hat"; Sample.card_for "scarf"]);
   SetAttributes (Sample.recs "456" None);
   Activate Sample.empty_cart;
   SetAttributes (Sample.recs "123" None);
   Activate Sample.empty_cart].

Definition scarf : product :=
  {| id := Some "scarf"; html := "<div class='resource-card'>scarf</div>" |}.

(** A card whose product link is an anchor inside an [svg] element. *)
Definition svg_link : card :=
  {| anchors :=
       [{| attr_href := "#top"; href := Url "https://shop.example/cart#top" |};
        {| attr_href := "/products/hat"; href := NoString |};
        {| attr_href := "/products/hat";
           href := Url "https://shop.example/products/hat" |}];
     outerHTML := "<div class='resource-card'>svg</div>" |}.

(** The handle of request 1 is dropped while it is in flight (as in
    [Sample.superseded]), so that a further activation for the same item
    starts request 2 beside it; both come back, request 1 first. *)
Definition two_answers : list event :=
  [Activate Sample.empty_cart;
   SetAttributes (Sample.recs "456" None);
   Activate Sample.empty_cart;
   Settle Sample.empty_cart 0 Rejected;
   Activate Sample.empty_cart;
   Settle Sample.empty_cart 1 (Responded true 200 [Sample.card_for "hat"]);
   Settle Sample.empty_cart 2 (Responded true 200 [Sample.card_for "scarf"])].

End Trace.

(** * Properties *)

(** ** The cart id set *)

Section CartIds.

Lemma add_ids_spec ids acc s :
  s ∈ add_ids ids acc ↔ (s ∈ ids ∧ s ≠ "") ∨ s ∈ acc.
Proof.
  unfold add_ids. revert acc. induction ids as [|i ids IH]; intros acc; simpl.
  - rewrite elem_of_nil. tauto.
  - rewrite IH, elem_of_cons. destruct i as [|a i']; simpl.
    + split; [tauto|]. intros [[[->|Hin] Hne]|Hacc]; tauto.
    + rewrite elem_of_union, elem_of_singleton.
      split; [|tauto].
      intros [?|[->|?]]; [tauto| |tauto]. left. split; [by left|discriminate].
Qed.

Lemma cartItemIds_spec pg s :
  s ∈ cartItemIds pg ↔
    s ≠ "" ∧ (s ∈ cart_table_ids pg ∨ s ∈ product_card_ids pg).
Proof.
  unfold cartItemIds. rewrite !add_ids_spec, elem_of_empty. tauto.
Qed.

Lemma cartItemIds_no_empty pg : "" ∉ cartItemIds pg.
Proof. rewrite cartItemIds_spec. tauto. Qed.

End CartIds.

(** ** The filter *)

Section Filter.

(** The product pattern never captures an empty handle. *)
Lemma match_here_nonempty s g : match_here s = Some g → g ≠ "".
Proof.
  unfold match_here. destruct (JS.strip_prefix "/products/" s); [|done].
  destruct (JS.take_while is_handle_char s0); [done|].
  intros [= <-]. discriminate.
Qed.

Lemma match_product_id_nonempty s : match_product_id s ≠ Some "".
Proof.
  induction s as [|a s IH]; cbn [match_product_id].
  - destruct (match_here "") as [g|] eqn:Hg; [|done].
    intros [= ->]. by eapply match_here_nonempty.
  - destruct (match_here (String a s)) as [g|] eqn:Hg; [|done].
    intros [= ->]. by eapply match_here_nonempty.
Qed.

Lemma product_of_card_id_nonempty c p :
  product_of_card c = Some p → id p ≠ Some "".
Proof.
  unfold product_of_card.
  destruct (product_link c) as [link|]; [|by intros [= <-]].
  destruct (href link) as [resolved|]; [|done].
  intros [= <-]. apply match_product_id_nonempty.
Qed.

Lemma products_of_cards_nonempty c cs products :
  products_of_cards (c :: cs) = Some products → products ≠ [].
Proof.
  intros Hbuilt. apply mapM_Some_1, Forall2_length in Hbuilt.
  by destruct products.
Qed.

Lemma products_of_cards_ids_nonempty cards built :
  products_of_cards cards = Some built →
  Forall (λ p, id p ≠ Some "") built.
Proof.
  intros Hbuilt. apply mapM_Some_1 in Hbuilt.
  induction Hbuilt as [|c p cards built Hp _ IH]; constructor; [|done].
  by eapply product_of_card_id_nonempty.
Qed.

(** The callback decides the specification's rule, unless the product has
    the empty string for id and the set holds the empty string. *)
Lemma keeps_kept ids p :
  (id p = Some "" → "" ∉ ids) →
  keeps ids p = bool_decide (kept ids p).
Proof.
  intros Hempty.
  case_bool_decide as Hk; unfold kept in Hk; unfold keeps;
    destruct (id p) as [[|a s']|]; simpl; try done.
  - by rewrite bool_decide_eq_false_2.
  - by destruct Hk; apply Hempty.
  - rewrite bool_decide_eq_true_2; [done|].
    destruct (decide (String a s' ∈ ids)); tauto.
Qed.

Lemma filter_bool_decide {A} (P : A → Prop) `{∀ x, Decision (P x)} (l : list A) :
  List.filter (λ x, bool_decide (P x)) l = filter P l.
Proof.
  induction l as [|x l IH]; [done|]. simpl. rewrite filter_cons.
  rewrite IH. destruct (decide (P x)).
  - by rewrite bool_decide_eq_true_2.
  - by rewrite bool_decide_eq_false_2.
Qed.

Lemma filteredProducts_kept ids P :
  Forall (λ p, id p = Some "" → "" ∉ ids) P →
  filteredProducts ids P = filter (kept ids) P.
Proof.
  intros HP. unfold filteredProducts. rewrite <- filter_bool_decide.
  induction HP as [|p P Hp HP IH]; [done|].
  cbn [List.filter]. by rewrite IH, keeps_kept.
Qed.

Lemma kept_iff ids p :
  kept ids p ↔ id p = None ∨ ∃ s, id p = Some s ∧ s ∉ ids.
Proof.
  unfold kept. destruct (id p) as [s|]; [|tauto]. split.
  - intros Hs. right. by exists s.
  - intros [Hn|(s' & Hs' & Hni)]; [done|]. by simplify_eq.
Qed.

(** C7. For every product sequence [P] and every cart id set the
    component computes from a page, the filter keeps exactly the products
    whose id is absent or is not in the set (it is the specification's
    filter), the kept products stand in their order in [P], and every
    product without an id is retained.  The same holds for every set of
    ids whatever, on the products the component builds from cards. *)
Theorem filter_keeps_exactly_and_in_order (pg : page) (P : list product) :
  let ids := cartItemIds pg in
  filteredProducts ids P = filter (kept ids) P
  ∧ sublist (filteredProducts ids P) P
  ∧ (∀ p, p ∈ filteredProducts ids P ↔
          p ∈ P ∧ (id p = None ∨ ∃ s, id p = Some s ∧ s ∉ ids))
  ∧ (∀ p, p ∈ P → id p = None → p ∈ filteredProducts ids P)
  ∧ (∀ (S : gset string) (cards : list card) (built : list product),
       products_of_cards cards = Some built →
       filteredProducts S built = filter (kept S) built
       ∧ sublist (filteredProducts S built) built
       ∧ (∀ p, p ∈ filteredProducts S built ↔
               p ∈ built ∧ (id p = None ∨ ∃ s, id p = Some s ∧ s ∉ S))).
Proof.
  assert (Hgen : ∀ ids Q,
    Forall (λ p, id p = Some "" → "" ∉ ids) Q →
    filteredProducts ids Q = filter (kept ids) Q
    ∧ sublist (filteredProducts ids Q) Q
    ∧ (∀ p, p ∈ filteredProducts ids Q ↔
            p ∈ Q ∧ (id p = None ∨ ∃ s, id p = Some s ∧ s ∉ ids))).
  { intros ids Q HQ. rewrite filteredProducts_kept by done.
    split; [done|]. split; [apply sublist_filter|].
    intros p. rewrite list_elem_of_filter, kept_iff. tauto. }
  intros ids. subst ids.
  destruct (Hgen (cartItemIds pg) P) as (Heq & Hsub & Hin).
  { apply Forall_forall. intros p _ _. apply cartItemIds_no_empty. }
  split; [done|]. split; [done|]. split; [done|]. split.
  - intros p Hp Hid. apply Hin. split; [done|]. by left.
  - intros S cards built Hbuilt. apply Hgen.
    eapply Forall_impl; [by eapply products_of_cards_ids_nonempty|].
    intros p Hp Hid. by destruct Hp.
Qed.

End Filter.

(** ** The cap *)

Section Cap.

Lemma digit_value_digit_char d :
  JS.digit_value 10 (digit_char d) = Some (Z.of_nat (digit_nat d)).
Proof. by destruct d. Qed.

Lemma parse_digits_numeral ds d (acc : option Z) (a : nat) :
  default 0%Z acc = Z.of_nat a →
  JS.parse_digits 10 (numeral (d :: ds)) acc
  = Some (Z.of_nat (foldl (λ acc d, 10 * acc + digit_nat d) a (d :: ds))).
Proof.
  revert d acc a. induction ds as [|d' ds IH]; intros d acc a Hacc.
  - simpl. rewrite digit_value_digit_char, Hacc. f_equal. lia.
  - change (numeral (d :: d' :: ds))
      with (String (digit_char d) (numeral (d' :: ds))).
    cbn [JS.parse_digits]. rewrite digit_value_digit_char.
    rewrite (IH d' _ (10 * a + digit_nat d)); [done|].
    simpl. rewrite Hacc. lia.
Qed.

Lemma trim_start_digit d r :
  JS.trim_start (String (digit_char d) r) = String (digit_char d) r.
Proof.
  destruct d; cbn [digit_char]; destruct r as [|b [|c r]]; reflexivity.
Qed.

(** [parseInt] reads a decimal numeral as the number it denotes. *)
Lemma parseInt_numeral d ds :
  JS.parseInt (numeral (d :: ds)) = Some (Z.of_nat (numeral_value (d :: ds))).
Proof.
  pose proof (parse_digits_numeral ds d None 0 eq_refl) as Hgo.
  fold (numeral_value (d :: ds)) in Hgo.
  revert Hgo. generalize (numeral_value (d :: ds)). intros n.
  unfold JS.parseInt.
  change (numeral (d :: ds)) with (String (digit_char d) (numeral ds)).
  rewrite trim_start_digit. intros Hgo.
  destruct d; cbn [digit_char] in *;
    try (cbv beta iota zeta; rewrite Hgo; f_equal; lia).
  destruct ds as [|d' ds].
  - change (numeral []) with "" in *. cbv beta iota zeta.
    rewrite Hgo. f_equal; lia.
  - change (numeral (d' :: ds)) with (String (digit_char d') (numeral ds)) in *.
    destruct d'; cbn [digit_char] in *; cbv beta iota zeta;
      rewrite Hgo; f_equal; lia.
Qed.

Lemma or_else_numeral d ds dflt :
  JS.or_else (Some (numeral (d :: ds))) dflt = numeral (d :: ds).
Proof. reflexivity. Qed.

Lemma length_slice0 {A} (l : list A) (n : nat) :
  length (JS.slice0 l (Some (Z.of_nat n))) = Nat.min (length l) n.
Proof.
  unfold JS.slice0. simpl default.
  destruct (Z.ltb_spec (Z.of_nat n) 0) as [Hneg|_]; [lia|].
  rewrite length_take. lia.
Qed.

Lemma digit_nat_of_nat n : n < 10 → digit_nat (digit_of_nat n) = n.
Proof.
  intros Hn. do 10 (destruct n as [|n]; [reflexivity|]). lia.
Qed.

Lemma numeral_value_snoc ds d :
  numeral_value (ds ++ [d])%list = 10 * numeral_value ds + digit_nat d.
Proof. unfold numeral_value. by rewrite foldl_app. Qed.

(** Every natural number is the value of a numeral. *)
Lemma numeral_value_surjective n : ∃ d ds, numeral_value (d :: ds) = n.
Proof.
  induction n as [n IH] using lt_wf_ind.
  destruct (decide (n < 10)) as [Hlt|Hge].
  - exists (digit_of_nat n), []. unfold numeral_value. simpl.
    by rewrite digit_nat_of_nat.
  - destruct (IH (n / 10)) as (d & ds & Hv).
    { apply Nat.div_lt; lia. }
    exists d, (ds ++ [digit_of_nat (n mod 10)])%list.
    change (d :: ds ++ [digit_of_nat (n mod 10)])%list
      with ((d :: ds) ++ [digit_of_nat (n mod 10)])%list.
    rewrite numeral_value_snoc, Hv, digit_nat_of_nat.
    + symmetry. apply Nat.div_mod_eq.
    + apply Nat.mod_upper_bound. lia.
Qed.

(** C8. For every product sequence and every cap that is an integer at
    least 0, written as a decimal numeral in [data-max-products] (and 9
    when the attribute is absent), the sequence to show has at most cap
    elements and exactly min(|kept|, cap) of them, where kept is what the
    cart filter returns.  Every such integer has a numeral. *)
Theorem shown_count_is_min_of_kept_and_cap
    (pg : page) (products : list product) (item endpoint section : option string) :
  let kept_products := filteredProducts (cartItemIds pg) products in
  (∀ d ds,
     let cap := numeral_value (d :: ds) in
     let shown :=
       productsToShow
         {| productId := item; url := endpoint;
            maxProducts := Some (numeral (d :: ds)); sectionId := section |}
         kept_products in
     length shown ≤ cap ∧ length shown = Nat.min (length kept_products) cap)
  ∧ (let shown :=
       productsToShow
         {| productId := item; url := endpoint;
            maxProducts := None; sectionId := section |}
         kept_products in
     length shown ≤ 9 ∧ length shown = Nat.min (length kept_products) 9)
  ∧ (∀ n, ∃ d ds, numeral_value (d :: ds) = n).
Proof.
  intros kept_products. split; [|split].
  - intros d ds cap shown. subst shown.
    unfold productsToShow, max_products. cbn [maxProducts].
    rewrite or_else_numeral, parseInt_numeral, length_slice0.
    fold cap. lia.
  - intros shown. subst shown.
    unfold productsToShow, max_products. cbn [maxProducts JS.or_else].
    change (JS.parseInt "9") with (Some (Z.of_nat 9)).
    rewrite length_slice0. lia.
  - apply numeral_value_surjective.
Qed.

End Cap.

(** ** The carousel *)

Section Carousel.

(** Below a slide there is a [div] and the product's markup: no element
    with another tag. *)
Lemma querySelectorAll_slide t i p :
  has_tag t (Element "div" [("class", "resource-list__item")] [RawHTML (html p)]) = false →
  querySelectorAll t (slide i p) = [].
Proof. intros Hdiv. unfold slide. simpl in *. by rewrite Hdiv. Qed.

Lemma slides_from_spec (f : nat → nat) shown :
  flat_map (λ c, ((if has_tag "slideshow-slide" c then [c] else [])
                    ++ querySelectorAll "slideshow-slide" c)%list)
    (imap (λ i, slide (f i)) shown)
  = imap (λ i, slide (f i)) shown.
Proof.
  revert f. induction shown as [|p shown IH]; intros f; [done|].
  rewrite imap_cons. cbn [flat_map].
  rewrite querySelectorAll_slide by done.
  change (has_tag "slideshow-slide" (slide (f 0) p)) with true.
  cbn [app]. f_equal. apply (IH (f ∘ S)).
Qed.

Lemma no_arrows_in_slides (f : nat → nat) shown :
  flat_map (λ c, ((if has_tag "slideshow-arrows" c then [c] else [])
                    ++ querySelectorAll "slideshow-arrows" c)%list)
    (imap (λ i, slide (f i)) shown)
  = [].
Proof.
  revert f. induction shown as [|p shown IH]; intros f; [done|].
  rewrite imap_cons. cbn [flat_map].
  rewrite querySelectorAll_slide by done.
  change (has_tag "slideshow-arrows" (slide (f 0) p)) with false.
  cbn [app]. apply (IH (f ∘ S)).
Qed.

(** The carousel holds one slide per product, in order. *)
Lemma slides_of_carousel shown : slides_of (carousel shown) = slides shown.
Proof.
  unfold slides_of, carousel, slides.
  assert (Hs : flat_map
      (λ c, ((if has_tag "slideshow-slide" c then [c] else [])
               ++ querySelectorAll "slideshow-slide" c)%list)
      (imap slide shown) = imap slide shown)
    by apply (slides_from_spec (λ i, i)).
  destruct (3 <? length shown); cbn -[slide imap]; rewrite Hs;
    by rewrite !app_nil_r.
Qed.

Lemma arrows_of_carousel shown :
  arrows (carousel shown) = if 3 <? length shown then [createArrows] else [].
Proof.
  unfold arrows, carousel, slides.
  assert (Hs : flat_map
      (λ c, ((if has_tag "slideshow-arrows" c then [c] else [])
               ++ querySelectorAll "slideshow-arrows" c)%list)
      (imap slide shown) = [])
    by apply (no_arrows_in_slides (λ i, i)).
  destruct (3 <? length shown); cbn -[slide imap]; by rewrite Hs.
Qed.

Lemma aria_hidden_of_slides (f : nat → nat) shown :
  map (getAttribute "aria-hidden") (imap (λ i, slide (f i)) shown)
  = imap (λ i _, Some (if 3 <=? f i then "true" else "false")) shown.
Proof.
  revert f. induction shown as [|p shown IH]; intros f; [done|].
  rewrite !imap_cons. cbn [map]. f_equal. apply (IH (f ∘ S)).
Qed.

(** C9. A carousel of exactly 3 products has no navigation arrows and one
    of 4 products has them; in general the arrows are there exactly when
    there are more than 3 slides.  The carousel has one slide per product
    and the slides at index 3 and beyond carry [aria-hidden="true"], the
    first three [aria-hidden="false"]. *)
Theorem arrows_exactly_above_three_slides (shown : list product) :
  arrows (carousel shown) = (if 3 <? length shown then [createArrows] else [])
  ∧ (∀ a b c, arrows (carousel [a; b; c]) = [])
  ∧ (∀ a b c d, arrows (carousel [a; b; c; d]) = [createArrows])
  ∧ length (slides_of (carousel shown)) = length shown
  ∧ map (getAttribute "aria-hidden") (slides_of (carousel shown))
    = imap (λ i _, Some (if 3 <=? i then "true" else "false")) shown.
Proof.
  split; [apply arrows_of_carousel|].
  split; [intros; apply arrows_of_carousel|].
  split; [intros; apply arrows_of_carousel|].
  rewrite slides_of_carousel. unfold slides. split.
  - apply length_imap.
  - apply (aria_hidden_of_slides (λ i, i)).
Qed.

End Carousel.

(** ** What [#renderProducts] changes *)

Section Render.

(** The three ways [#renderProducts] ends. *)
Lemma renderProducts_cases pg products w :
  renderProducts pg products w = set_hidden true w
  ∨ renderProducts pg products w = w
  ∨ ∃ r filtered,
      contentEl w = Some r
      ∧ products ≠ []
      ∧ filtered = filteredProducts (cartItemIds pg) products
      ∧ filtered ≠ []
      ∧ renderProducts pg products w
        = set_contentEl
            (Some {| region_hidden := false;
                     region_children :=
                       (region_children r
                          ++ [carousel (productsToShow (data w) filtered)])%list |})
            w.
Proof.
  unfold renderProducts. destruct products as [|p ps]; [by left|].
  destruct (contentEl w) as [r|]; [|by right; left].
  destruct (filteredProducts (cartItemIds pg) (p :: ps)) as [|q qs] eqn:Hf;
    [by left|].
  right; right. by exists r, (q :: qs).
Qed.

Lemma renderProducts_frame pg products w :
  let w' := renderProducts pg products w in
  cachedRecommendations w' = cachedRecommendations w
  ∧ activeFetch w' = activeFetch w
  ∧ data w' = data w
  ∧ loadingEl w' = loadingEl w
  ∧ network w' = network w
  ∧ console w' = console w.
Proof.
  intros w'. subst w'.
  destruct (renderProducts_cases pg products w)
    as [-> | [-> | (r & f & _ & _ & _ & _ & ->)]]; done.
Qed.

(** C10. When the element has no content region, rendering a non-empty
    product sequence changes nothing: no carousel is built, the DOM is as
    it was, and the element is not marked hidden. *)
Theorem render_without_content_region_changes_nothing
    (pg : page) (products : list product) (w : widget) :
  products ≠ [] →
  contentEl w = None →
  renderProducts pg products w = w.
Proof.
  intros Hne Hc. unfold renderProducts.
  destruct products as [|p ps]; [done|]. by rewrite Hc.
Qed.

Lemma render_without_content_region_witness :
  renderProducts Sample.empty_cart [Sample.hat]
    (Sample.without_content (Sample.recs "123" None))
  = Sample.without_content (Sample.recs "123" None).
Proof.
  apply render_without_content_region_changes_nothing.
  - discriminate.
  - reflexivity.
Defined.

End Render.

(** ** Activation *)

Section Activation.

(** C6, counterexample.  An element without an item id is not hidden by
    its activation. *)
Lemma missing_item_id_is_not_hidden :
  productId (data Sample.no_item) = None
  ∧ hidden (connectedCallback Sample.empty_cart Sample.no_item) ≠ true.
Proof. split; [reflexivity|]. vm_compute. discriminate. Qed.

(** C6, as the code has it.  When the item id is absent (or empty), or the
    element is already hidden, the activation does nothing at all: no
    request is issued and the element is left as it was, in particular it
    is not marked hidden.  When the item id is there and the endpoint URL
    is absent (or empty), the activation of an element that is not hidden
    issues no request and marks the element hidden. *)
Theorem missing_parameters_issue_no_request (pg : page) (w : widget) :
  (JS.truthy (productId (data w)) = false ∨ hidden w = true →
     connectedCallback pg w = w)
  ∧ (hidden w = false →
     JS.truthy (productId (data w)) = true →
     JS.truthy (url (data w)) = false →
     connectedCallback pg w = set_hidden true w
     ∧ network (connectedCallback pg w) = network w
     ∧ hidden (connectedCallback pg w) = true).
Proof.
  unfold connectedCallback. split.
  - intros [-> | ->]; [|done]. by rewrite orb_true_r.
  - intros -> Hp Hu. rewrite Hp. cbn [negb orb].
    assert (Hl : loadRecommendations pg w = set_hidden true w).
    { unfold loadRecommendations.
      destruct (productId (data w)) as [p|]; [|done].
      destruct (url (data w)) as [u|]; [|done].
      simpl in Hp, Hu. by rewrite Hp, Hu. }
    by rewrite Hl.
Qed.

Lemma missing_parameters_witness :
  connectedCallback Sample.empty_cart Sample.no_item = Sample.no_item
  ∧ hidden (connectedCallback Sample.empty_cart Sample.no_url) = true.
Proof.
  split.
  - apply (proj1 (missing_parameters_issue_no_request
                    Sample.empty_cart Sample.no_item)).
    left. reflexivity.
  - apply (proj2 (missing_parameters_issue_no_request
                    Sample.empty_cart Sample.no_url)); reflexivity.
Defined.

End Activation.

(** ** Responses *)

Section Responses.

(** A request that is in flight and was not aborted settles through
    [respond] and the [finally] block. *)
Lemma settle_live pg i o w r :
  network w !! i = Some r →
  req_settled r = false →
  req_aborted r = false →
  settle pg i o w
  = Some (finally (respond pg (req_url r) o
                     (set_network (alter settle_request i (network w)) w))).
Proof. intros Hr Hs Ha. unfold settle. by rewrite Hr, Hs, Ha. Qed.

(** An aborted request settles through the [finally] block alone. *)
Lemma settle_aborted pg i o w r :
  network w !! i = Some r →
  req_settled r = false →
  req_aborted r = true →
  settle pg i o w
  = Some (finally (set_network (alter settle_request i (network w)) w)).
Proof. intros Hr Hs Ha. unfold settle. by rewrite Hr, Hs, Ha. Qed.

(** C3, counterexample.  After a successful response without product
    cards the element is hidden, and the cache has no entry for the
    request key: the empty sequence is not recorded. *)
Lemma empty_response_is_not_cached :
  ∃ w', settle Sample.empty_cart 0 (Responded true 200 []) Sample.loading = Some w'
        ∧ hidden w' = true
        ∧ cachedRecommendations w' !! Sample.key "123" ≠ Some [].
Proof.
  eexists. split; [reflexivity|]. split; [reflexivity|].
  vm_compute. discriminate.
Qed.

(** C3, as the code has it.  When a request that was not aborted comes
    back with a successful status and no product card, the element ends
    hidden and the cache is exactly what it was: nothing is recorded for
    the request key. *)
Theorem empty_response_hides_and_keeps_cache
    (pg : page) (i status : nat) (w : widget) (r : request) :
  network w !! i = Some r →
  req_settled r = false →
  req_aborted r = false →
  ∃ w', settle pg i (Responded true status []) w = Some w'
        ∧ hidden w' = true
        ∧ cachedRecommendations w' = cachedRecommendations w.
Proof.
  intros Hr Hs Ha. eexists. split; [by eapply settle_live|]. done.
Qed.

Lemma empty_response_witness :
  ∃ w', settle Sample.empty_cart 0 (Responded true 200 []) Sample.loading = Some w'
        ∧ hidden w' = true
        ∧ cachedRecommendations w' = cachedRecommendations Sample.loading.
Proof.
  apply (empty_response_hides_and_keeps_cache Sample.empty_cart 0 200
           Sample.loading
           {| req_url := Sample.key "123"; req_aborted := false;
              req_settled := false |}); reflexivity.
Defined.

(** ** The cache *)



(** ** Rendering into the content region *)

(** C5, counterexample.  The element rendered item 123 once, a request
    for item 456 is in flight, and the element is activated again for
    item 123, which is cached.  After this render the content region
    holds two carousels, the earlier one and the new one, and the loading
    indicator is still visible. *)
Lemma second_render_accumulates :
  ∃ w', Sample.rerendered = Some w'
        ∧ contentEl w'
          = Some {| region_hidden := false;
                    region_children :=
                      [carousel [Sample.hat]; carousel [Sample.hat]] |}
        ∧ contentEl w'
          ≠ Some {| region_hidden := false;
                    region_children := [carousel [Sample.hat]] |}
        ∧ loadingEl w' = Some false.
Proof.
  eexists. split; [reflexivity|].
  split; [vm_compute; reflexivity|].
  split; [vm_compute; discriminate|].
  vm_compute; reflexivity.
Qed.

(** C5, as the code has it.  When the carousel is rendered, it is added to
    the content region after what the region already holds: the region
    then has its earlier children followed by one carousel built from the
    current sequence to show, and it is made visible.  The render itself
    leaves the loading indicator as it is; the indicator is hidden by the
    end of a request, so a render that follows a response ends with the
    indicator hidden. *)
Theorem render_appends_carousel_and_shows_region
    (pg : page) (products : list product) (w : widget) (r : region) :
  contentEl w = Some r →
  products ≠ [] →
  filteredProducts (cartItemIds pg) products ≠ [] →
  let shown :=
    productsToShow (data w) (filteredProducts (cartItemIds pg) products) in
  let after :=
    {| region_hidden := false;
       region_children := (region_children r ++ [carousel shown])%list |} in
  renderProducts pg products w = set_contentEl (Some after) w
  ∧ loadingEl (renderProducts pg products w) = loadingEl w
  ∧ (∀ i q status cards,
       network w !! i = Some q →
       req_settled q = false →
       req_aborted q = false →
       products_of_cards cards = Some products →
       ∃ w', settle pg i (Responded true status cards) w = Some w'
             ∧ contentEl w' = Some after
             ∧ loadingEl w' = set_hidden_if_present true (loadingEl w)).
Proof.
  intros Hc Hne Hf shown after.
  assert (Hrender : ∀ w0, contentEl w0 = Some r → data w0 = data w →
            renderProducts pg products w0 = set_contentEl (Some after) w0).
  { intros w0 Hc0 Hd0. unfold renderProducts.
    destruct products as [|p ps]; [done|]. rewrite Hc0.
    subst after shown. rewrite Hd0. revert Hf.
    by destruct (filteredProducts (cartItemIds pg) (p :: ps)). }
  split; [by apply Hrender|]. split; [apply renderProducts_frame|].
  intros i q status cards Hq Hs Ha Hcards.
  eexists. split; [by eapply settle_live|].
  destruct cards as [|c cs]; [by injection Hcards as <-|].
  cbn [respond]. rewrite Hcards, Hrender; done.
Qed.

Lemma render_appends_witness :
  renderProducts Sample.empty_cart [Sample.hat] Sample.loading
  = set_contentEl
      (Some {| region_hidden := false;
               region_children := [carousel [Sample.hat]] |})
      Sample.loading
  ∧ ∃ w', settle Sample.empty_cart 0
            (Responded true 200 [Sample.card_for "hat"]) Sample.loading = Some w'
          ∧ contentEl w'
            = Some {| region_hidden := false;
                      region_children := [carousel [Sample.hat]] |}
          ∧ loadingEl w' = Some true.
Proof.
  destruct (render_appends_carousel_and_shows_region
              Sample.empty_cart [Sample.hat] Sample.loading
              {| region_hidden := true; region_children := [] |})
    as (Hrender & _ & Hsettle).
  - reflexivity.
  - discriminate.
  - vm_compute. discriminate.
  - split; [exact Hrender|].
    apply (Hsettle 0 {| req_url := Sample.key "123"; req_aborted := false;
                        req_settled := false |} 200 [Sample.card_for "hat"]);
      reflexivity.
Defined.

(** ** The empty carousel *)

(** C2, at the failing input.  With [data-max-products="0"] and a response
    of one card that is not in the cart, the element is not hidden: the
    content region is made visible and holds a carousel without a single
    slide. *)
Theorem zero_cap_renders_empty_carousel :
  ∃ w', settle Sample.empty_cart 0
          (Responded true 200 [Sample.card_for "hat"])
          Sample.loading_capped_at_zero = Some w'
        ∧ productsToShow (data Sample.loading_capped_at_zero)
            (filteredProducts (cartItemIds Sample.empty_cart) [Sample.hat]) = []
        ∧ hidden w' = false
        ∧ contentEl w'
          = Some {| region_hidden := false;
                    region_children := [carousel []] |}
        ∧ slides_of (carousel []) = [].
Proof.
  eexists. split; [reflexivity|].
  repeat split; vm_compute; reflexivity.
Qed.

(** ** Superseded requests *)

(** What the settling of an aborted request leaves alone: the cache, the
    element's [hidden] attribute, the content region and the console. *)
Lemma settle_aborted_frame pg i o w r :
  network w !! i = Some r →
  req_settled r = false →
  req_aborted r = true →
  ∃ w', settle pg i o w = Some w'
        ∧ cachedRecommendations w' = cachedRecommendations w
        ∧ hidden w' = hidden w
        ∧ contentEl w' = contentEl w
        ∧ console w' = console w
        ∧ loadingEl w' = set_hidden_if_present true (loadingEl w)
        ∧ activeFetch w' = None.
Proof.
  intros Hr Hs Ha. eexists. split; [by eapply settle_aborted|]. done.
Qed.

(** C1, at the failing input.  Request 0 is aborted by the activation
    that starts request 1.  When request 0 then settles, whatever came
    back, the loading indicator, which the newer activation had made
    visible, is hidden, and the handle of request 1 is dropped, although
    request 1 is still in flight.  A third activation therefore does not
    abort request 1, whose response is then cached and rendered while the
    most recent request, 2, is in flight. *)
Theorem superseded_request_hides_loading_and_drops_handle :
  network Sample.superseded !! 0
    = Some {| req_url := Sample.key "123"; req_aborted := true;
              req_settled := false |}
  ∧ loadingEl Sample.superseded = Some false
  ∧ activeFetch Sample.superseded = Some 1
  ∧ ∀ o, ∃ w3,
      settle Sample.empty_cart 0 o Sample.superseded = Some w3
      ∧ loadingEl w3 = Some true
      ∧ activeFetch w3 = None
      ∧ network w3 !! 1
        = Some {| req_url := Sample.key "456"; req_aborted := false;
                  req_settled := false |}
      ∧ let w4 := connectedCallback Sample.empty_cart
                    (setAttributes (Sample.recs "789" None) w3) in
        network w4 !! 1
          = Some {| req_url := Sample.key "456"; req_aborted := false;
                    req_settled := false |}
        ∧ network w4 !! 2
          = Some {| req_url := Sample.key "789"; req_aborted := false;
                    req_settled := false |}
        ∧ ∃ w5,
            settle Sample.empty_cart 1
              (Responded true 200 [Sample.card_for "hat"]) w4 = Some w5
            ∧ cachedRecommendations w5 !! Sample.key "456" = Some [Sample.hat]
            ∧ contentEl w5
              = Some {| region_hidden := false;
                        region_children := [carousel [Sample.hat]] |}
            ∧ network w5 !! 2
              = Some {| req_url := Sample.key "789"; req_aborted := false;
                        req_settled := false |}.
Proof.
  split; [reflexivity|]. split; [reflexivity|]. split; [reflexivity|].
  intros o. eexists. split; [reflexivity|].
  split; [reflexivity|]. split; [reflexivity|]. split; [reflexivity|].
  cbv zeta. split; [reflexivity|]. split; [reflexivity|].
  eexists. split; [reflexivity|].
  split; [vm_compute; reflexivity|]. split; reflexivity.
Qed.

End Responses.

(** ** A scenario *)

Section Scenario.

(** Five cards come back and one of the five products is in the cart: the
    carousel shows four slides, with arrows, the fourth slide hidden from
    assistive technology. *)
Example five_cards_one_in_cart :
  ∃ w' c,
    settle (Sample.cart_with ["b"]) 0
      (Responded true 200 (map Sample.card_for ["a"; "b"; "c"; "d"; "e"]))
      Sample.loading = Some w'
    ∧ (region_children <$> contentEl w') = Some [c]
    ∧ hidden w' = false
    ∧ map (getAttribute "aria-hidden") (slides_of c)
      = [Some "false"; Some "false"; Some "false"; Some "true"]
    ∧ arrows c = [createArrows].
Proof.
  eexists. eexists. split; [reflexivity|].
  split; [vm_compute; reflexivity|]. repeat split; vm_compute; reflexivity.
Qed.

End Scenario.

(** * Further properties *)

(** ** The product id of a card *)

Section ProductId.

Lemma strip_prefix_Some p s r : JS.strip_prefix p s = Some r ↔ s = p ++ r.
Proof.
  revert s. induction p as [|a p IH]; intros s; simpl.
  - split; [by intros [= ->]|by intros ->].
  - destruct s as [|b s]; [done|].
    destruct (Ascii.eqb_spec a b) as [->|Hne].
    + rewrite IH. split; [by intros ->|by intros [= ->]].
    + split; [done|]. intros [= ? _]. by destruct Hne.
Qed.

Lemma take_drop_while f s : s = JS.take_while f s ++ JS.drop_while f s.
Proof.
  induction s as [|c s IH]; [done|]. simpl.
  destruct (f c); [|done].
  change (String c s = String c (JS.take_while f s ++ JS.drop_while f s)).
  by rewrite <- IH.
Qed.

Lemma take_while_forall f s : string_forall f (JS.take_while f s) = true.
Proof.
  induction s as [|c s IH]; [done|]. simpl.
  destruct (f c) eqn:Hc; [|done]. simpl. by rewrite Hc, IH.
Qed.

Lemma drop_while_stops f s : stops f (JS.drop_while f s) = true.
Proof.
  induction s as [|c s IH]; [done|]. simpl.
  destruct (f c) eqn:Hc; [done|]. simpl. by rewrite Hc.
Qed.

Lemma take_while_app f g rest :
  string_forall f g = true → stops f rest = true →
  JS.take_while f (g ++ rest) = g.
Proof.
  intros Hg Hrest. induction g as [|c g IH]; simpl in *.
  - destruct rest as [|c rest]; [done|]. simpl in *.
    by destruct (f c).
  - apply andb_true_iff in Hg as [Hc Hg]. rewrite Hc. by rewrite IH.
Qed.

(** A match of the pattern at the very start of [s]. *)
Lemma match_here_iff s g :
  match_here s = Some g ↔
  ∃ rest, s = "/products/" ++ g ++ rest
          ∧ g ≠ ""
          ∧ string_forall is_handle_char g = true
          ∧ stops is_handle_char rest = true.
Proof.
  unfold match_here. split.
  - destruct (JS.strip_prefix "/products/" s) as [r|] eqn:Hr; [|done].
    apply strip_prefix_Some in Hr.
    pose proof (take_drop_while is_handle_char r) as Hsplit.
    pose proof (take_while_forall is_handle_char r) as Hall.
    pose proof (drop_while_stops is_handle_char r) as Hstop.
    destruct (JS.take_while is_handle_char r) as [|c t]; [done|].
    intros [= <-]. exists (JS.drop_while is_handle_char r).
    rewrite <- Hsplit. done.
  - intros (rest & -> & Hne & Hall & Hstop).
    assert (Hr : JS.strip_prefix "/products/" ("/products/" ++ g ++ rest)
                 = Some (g ++ rest)) by by apply strip_prefix_Some.
    rewrite Hr, take_while_app by done. by destruct g.
Qed.

Lemma match_product_id_unfold s :
  match_product_id s
  = match match_here s with
    | Some g => Some g
    | None =>
        match s with
        | EmptyString => None
        | String _ s' => match_product_id s'
        end
    end.
Proof. by destruct s. Qed.

(** X1. The id taken from a link is the group of the leftmost match of the
    product pattern: the link reads [pre ++ "/products/" ++ g ++ rest],
    where [g] is not empty and has neither a slash nor a question mark,
    what follows [g] is nothing or begins with one of the two, and the
    pattern matches nowhere before. *)
Theorem product_id_is_leftmost_path_segment (s g : string) :
  match_product_id s = Some g ↔
  ∃ pre rest,
    s = pre ++ "/products/" ++ g ++ rest
    ∧ g ≠ ""
    ∧ string_forall is_handle_char g = true
    ∧ stops is_handle_char rest = true
    ∧ (∀ p1 p2, pre = p1 ++ p2 → p2 ≠ "" →
         match_here (p2 ++ "/products/" ++ g ++ rest) = None).
Proof.
  split.
  - revert g. induction s as [|c s IH]; intros g; rewrite match_product_id_unfold.
    + destruct (match_here "") as [g'|] eqn:Hh; [|done].
      intros [= ->]. apply match_here_iff in Hh as (rest & Hs & ?).
      discriminate Hs.
    + destruct (match_here (String c s)) as [g'|] eqn:Hh.
      * intros [= ->]. apply match_here_iff in Hh as (rest & Hs & Hne & Ha & Hst).
        exists "", rest. repeat split; try done.
        intros p1 p2 Hp Hp2. destruct p1; [|done]. simpl in Hp. by subst.
      * intros Hm. apply IH in Hm as (pre & rest & -> & Hne & Ha & Hst & Hleft).
        exists (String c pre), rest. repeat split; try done.
        intros p1 p2 Hp Hp2. destruct p1 as [|c1 p1].
        -- change (String c pre = p2) in Hp. subst p2. exact Hh.
        -- change (String c pre = String c1 (p1 ++ p2)) in Hp.
           injection Hp as -> ->. by apply (Hleft p1 p2).
  - intros (pre & rest & -> & Hne & Ha & Hst & Hleft).
    induction pre as [|c pre IH]; rewrite match_product_id_unfold.
    + assert (Hh : match_here ("" ++ "/products/" ++ g ++ rest) = Some g).
      { apply match_here_iff. by exists rest. }
      by rewrite Hh.
    + rewrite (Hleft "" (String c pre)) by done.
      apply IH. intros p1 p2 -> Hp2. by apply (Hleft (String c p1) p2).
Qed.

Example product_id_of_absolute_link :
  match_product_id "https://shop.example/products/hat?variant=7" = Some "hat".
Proof. reflexivity. Qed.

(** X2. One card whose product link cannot be read fails the whole
    response.  When the first anchor of a card whose [href] attribute
    contains [/products/] is not an HTML anchor (an anchor inside an [svg],
    say), the [map] callback throws on it: whatever the other cards are,
    before it or after it, nothing is cached and nothing rendered, one
    error is logged and the element is hidden. *)
Theorem unreadable_product_link_fails_the_response
    (pg : page) (i status : nat) (w : widget) (r : request)
    (cards_before : list card) (c : card) (cards_after : list card)
    (link : anchor) :
  network w !! i = Some r →
  live r →
  product_link c = Some link →
  href link = NoString →
  products_of_cards (cards_before ++ c :: cards_after)%list = None
  ∧ ∃ w', settle pg i
            (Responded true status (cards_before ++ c :: cards_after)%list) w
          = Some w'
          ∧ hidden w' = true
          ∧ console w' = (console w ++ [Failure])%list
          ∧ cachedRecommendations w' = cachedRecommendations w
          ∧ contentEl w' = contentEl w
          ∧ loadingEl w' = set_hidden_if_present true (loadingEl w)
          ∧ activeFetch w' = None.
Proof.
  intros Hr [Hs Ha] Hlink Hhref.
  assert (Hc : product_of_card c = None).
  { unfold product_of_card. by rewrite Hlink, Hhref. }
  assert (Hnone : products_of_cards (cards_before ++ c :: cards_after)%list = None).
  { apply mapM_None_2, Exists_app. right. by constructor. }
  split; [done|].
  eexists. split; [by eapply settle_live|].
  destruct (cards_before ++ c :: cards_after)%list as [|c0 cs] eqn:Hcards.
  { by destruct cards_before. }
  cbn [respond]. by rewrite Hnone.
Qed.

Lemma unreadable_product_link_witness :
  products_of_cards [Sample.card_for "hat"; Trace.svg_link] = None
  ∧ ∃ w', settle Sample.empty_cart 0
            (Responded true 200 [Sample.card_for "hat"; Trace.svg_link])
            Sample.loading
          = Some w'
          ∧ hidden w' = true
          ∧ console w' = [Failure]
          ∧ cachedRecommendations w' = cachedRecommendations Sample.loading
          ∧ contentEl w' = contentEl Sample.loading
          ∧ loadingEl w' = Some true
          ∧ activeFetch w' = None.
Proof.
  apply (unreadable_product_link_fails_the_response Sample.empty_cart 0 200
           Sample.loading
           {| req_url := Sample.key "123"; req_aborted := false;
              req_settled := false |}
           [Sample.card_for "hat"] Trace.svg_link []
           {| attr_href := "/products/hat"; href := NoString |}
           eq_refl (conj eq_refl eq_refl) eq_refl eq_refl).
Defined.

End ProductId.

(** ** The ids of the cart, the filter and the cap, further *)

Section Selection.

(** X3. The cart id set holds exactly the non-empty ids found by the two
    queries: an empty [data-product-id] is ignored, both queries
    contribute, and neither the order nor the repetition of the ids
    matters: two pages with the same non-empty ids give the same set. *)
Theorem cart_ids_are_nonempty_ids_of_both_queries (pg : page) :
  (∀ s, s ∈ cartItemIds pg ↔
        s ≠ "" ∧ (s ∈ cart_table_ids pg ∨ s ∈ product_card_ids pg))
  ∧ (∀ pg',
       (∀ s, s ≠ "" →
             (s ∈ cart_table_ids pg ∨ s ∈ product_card_ids pg ↔
              s ∈ cart_table_ids pg' ∨ s ∈ product_card_ids pg')) →
       cartItemIds pg = cartItemIds pg').
Proof.
  split; [apply cartItemIds_spec|].
  intros pg' Hsame. apply set_eq. intros s.
  rewrite !cartItemIds_spec. specialize (Hsame s). tauto.
Qed.

Lemma cart_ids_witness :
  cartItemIds {| cart_table_ids := ["b"; "a"; "b"]; product_card_ids := [""] |}
  = cartItemIds {| cart_table_ids := ["a"]; product_card_ids := ["b"; "a"] |}.
Proof.
  apply (proj2 (cart_ids_are_nonempty_ids_of_both_queries
                  {| cart_table_ids := ["b"; "a"; "b"];
                     product_card_ids := [""] |})).
  intros s Hs. cbn [cart_table_ids product_card_ids].
  rewrite !elem_of_cons, !elem_of_nil. tauto.
Defined.

Lemma sublist_bool_filter {A} (f : A → bool) (l : list A) :
  sublist (List.filter f l) l.
Proof.
  induction l as [|x l IH]; simpl; [constructor|].
  destruct (f x); by constructor.
Qed.

(** X4. Whatever the attributes, the page and the products, the sequence to
    show is an initial segment of the filtered sequence: the cap only cuts
    the end off.  So the products shown stand in the order of the response,
    each of them passed the filter, and none is shown twice unless the
    response had it twice. *)
Theorem shown_is_initial_segment_of_filtered
    (d : dataset) (pg : page) (products : list product) :
  let filtered := filteredProducts (cartItemIds pg) products in
  let shown := productsToShow d filtered in
  shown `prefix_of` filtered
  ∧ shown `sublist_of` products
  ∧ length shown ≤ length filtered
  ∧ (∀ p, p ∈ shown → p ∈ products ∧ keeps (cartItemIds pg) p = true).
Proof.
  intros filtered shown.
  assert (Hprefix : shown `prefix_of` filtered).
  { subst shown. unfold productsToShow, JS.slice0. apply prefix_take. }
  assert (Hsub : filtered `sublist_of` products) by apply sublist_bool_filter.
  split; [done|]. split; [|split].
  - etrans; [|exact Hsub]. subst shown. unfold productsToShow, JS.slice0.
    apply sublist_take.
  - by apply prefix_length.
  - intros p Hp.
    assert (Hin : p ∈ filtered).
    { destruct Hprefix as [k Hk]. rewrite Hk. apply elem_of_app. by left. }
    clear Hprefix Hsub Hp shown. subst filtered. unfold filteredProducts in Hin.
    apply list_elem_of_In, List.filter_In in Hin as [Hin Hk].
    split; [by apply list_elem_of_In|done].
Qed.

(** [parseInt] reads a decimal numeral behind a minus sign as the
    negative number. *)
Lemma parseInt_negative_numeral d ds :
  JS.parseInt (String "-"%char (numeral (d :: ds)))
  = Some (- Z.of_nat (numeral_value (d :: ds)))%Z.
Proof.
  pose proof (parse_digits_numeral ds d None 0 eq_refl) as Hgo.
  fold (numeral_value (d :: ds)) in Hgo.
  revert Hgo. generalize (numeral_value (d :: ds)). intros n.
  unfold JS.parseInt.
  replace (JS.trim_start (String "-"%char (numeral (d :: ds))))
    with (String "-"%char (numeral (d :: ds)))
    by (by destruct (numeral (d :: ds)) as [|b [|c r]]).
  cbv beta iota zeta.
  change (numeral (d :: ds)) with (String (digit_char d) (numeral ds)).
  intros Hgo.
  destruct d; cbn [digit_char] in *;
    try (cbv beta iota zeta; rewrite Hgo; f_equal; lia).
  destruct ds as [|d' ds].
  - change (numeral []) with "" in *. cbv beta iota zeta.
    rewrite Hgo. f_equal; lia.
  - change (numeral (d' :: ds)) with (String (digit_char d') (numeral ds)) in *.
    destruct d'; cbn [digit_char] in *; cbv beta iota zeta;
      rewrite Hgo; f_equal; lia.
Qed.

(** X5. A negative cap counts from the end: with
    [data-max-products="-n"], n at least 1, all the filtered products but
    the last n are shown, and none when there are n or fewer. *)
Theorem negative_cap_drops_the_last
    (item endpoint section : option string) (d : decimal_digit)
    (ds : list decimal_digit) (filtered : list product) :
  0 < numeral_value (d :: ds) →
  let n := numeral_value (d :: ds) in
  let shown :=
    productsToShow
      {| productId := item; url := endpoint;
         maxProducts := Some (String "-"%char (numeral (d :: ds)));
         sectionId := section |}
      filtered in
  shown = take (length filtered - n) filtered
  ∧ length shown = length filtered - n.
Proof.
  intros Hpos n shown. subst shown.
  unfold productsToShow, max_products. cbn [maxProducts JS.or_else JS.truthy_string].
  rewrite parseInt_negative_numeral. fold n. unfold JS.slice0. simpl default.
  destruct (Z.ltb_spec (- Z.of_nat n) 0) as [_|Hge]; [|lia].
  replace (Z.to_nat (Z.max (Z.of_nat (length filtered) + - Z.of_nat n) 0))
    with (length filtered - n) by lia.
  split; [done|]. rewrite length_take. lia.
Qed.

Lemma negative_cap_witness :
  productsToShow (Sample.recs "123" (Some "-1"))
    [Sample.hat; Trace.scarf]
  = [Sample.hat].
Proof.
  apply (proj1 (negative_cap_drops_the_last (Some "123") (Some "/recs?v=1") None
                  D1 [] [Sample.hat; Trace.scarf]
                  ltac:(vm_compute; lia))).
Defined.

(** X6. A cap that does not begin like a number shows nothing: when
    [data-max-products] starts with a character of one byte (a letter, a
    punctuation mark) that is neither white space, nor a sign, nor a digit,
    [parseInt] gives [NaN] and the sequence to show is empty, whatever was
    filtered.  An empty attribute counts as absent: the cap is 9. *)
Theorem unreadable_cap_shows_nothing
    (item endpoint section : option string) (c : Ascii.ascii) (rest : string)
    (filtered : list product) :
  starts_no_number c = true →
  JS.parseInt (String c rest) = None
  ∧ productsToShow
      {| productId := item; url := endpoint;
         maxProducts := Some (String c rest); sectionId := section |}
      filtered = []
  ∧ productsToShow
      {| productId := item; url := endpoint;
         maxProducts := Some ""; sectionId := section |}
      filtered
    = productsToShow
        {| productId := item; url := endpoint;
           maxProducts := None; sectionId := section |}
        filtered.
Proof.
  intros Hc.
  assert (Hnan : JS.parseInt (String c rest) = None).
  { destruct rest as [|b [|c' rest]];
      destruct c as [[] [] [] [] [] [] [] []];
      first [discriminate Hc | reflexivity]. }
  split; [done|]. split; [|reflexivity].
  unfold productsToShow, max_products. cbn [maxProducts JS.or_else JS.truthy_string].
  rewrite Hnan. unfold JS.slice0. simpl default.
  change (0 <? 0)%Z with false. cbv iota. by rewrite Z.min_l by lia.
Qed.

Lemma unreadable_cap_witness :
  productsToShow (Sample.recs "123" (Some "many")) [Sample.hat] = [].
Proof.
  apply (unreadable_cap_shows_nothing (Some "123") (Some "/recs?v=1") None
           "m"%char "any" [Sample.hat] eq_refl).
Defined.

End Selection.

(** ** The slides of the carousel *)

Section Slides.

Lemma style_of_slides (f : nat → nat) shown :
  map (getAttribute "style") (imap (λ i, slide (f i)) shown)
  = imap (λ i _, Some ("view-timeline-name: --slide-"
                         ++ JS.number_to_string (f i) ++ ";")) shown.
Proof.
  revert f. induction shown as [|p shown IH]; intros f; [done|].
  rewrite !imap_cons. cbn [map]. f_equal. apply (IH (f ∘ S)).
Qed.

Lemma no_component_in_slides (f : nat → nat) shown :
  flat_map (λ c, ((if has_tag "slideshow-component" c then [c] else [])
                    ++ querySelectorAll "slideshow-component" c)%list)
    (imap (λ i, slide (f i)) shown)
  = [].
Proof.
  revert f. induction shown as [|p shown IH]; intros f; [done|].
  rewrite imap_cons. cbn [flat_map].
  rewrite querySelectorAll_slide by done.
  change (has_tag "slideshow-component" (slide (f 0) p)) with false.
  cbn [app]. apply (IH (f ∘ S)).
Qed.

(** X7. The timeline of the slideshow and the slides agree on the names:
    slide number i carries [view-timeline-name: --slide-i], and the
    [--slideshow-timeline] of the slideshow lists exactly the names of the
    slides, as many as there are products shown, in the order of the
    slides and separated by spaces. *)
Theorem timeline_lists_the_slide_names_in_order (shown : list product) :
  let names :=
    map (λ i, "--slide-" ++ JS.number_to_string i) (seq 0 (length shown)) in
  length names = length shown
  ∧ map (getAttribute "style") (slides_of (carousel shown))
    = map (λ name, Some ("view-timeline-name: " ++ name ++ ";")) names
  ∧ map (getAttribute "style")
      (querySelectorAll "slideshow-component" (carousel shown))
    = [Some ("--slideshow-timeline: " ++ JS.join " " names ++ ";")].
Proof.
  intros names. split.
  { subst names. by rewrite length_map, length_seq. }
  rewrite slides_of_carousel. unfold slides. split.
  - rewrite (style_of_slides (λ i, i)).
    rewrite (imap_seq_0 shown
               (λ i, Some ("view-timeline-name: --slide-"
                             ++ JS.number_to_string i ++ ";"))).
    subst names. rewrite <- list_fmap_compose. done.
  - unfold carousel.
    assert (Hs : flat_map
        (λ c, ((if has_tag "slideshow-component" c then [c] else [])
                 ++ querySelectorAll "slideshow-component" c)%list)
        (imap slide shown) = [])
      by apply (no_component_in_slides (λ i, i)).
    unfold slides.
    destruct (3 <? length shown); cbn -[slide imap timeline append];
      rewrite Hs; reflexivity.
Qed.

End Slides.

(** ** What each operation leaves alone *)

Section Frames.

Lemma region_extends_refl c : region_extends c c.
Proof. destruct c; simpl; done. Qed.

Lemma region_extends_trans a b c :
  region_extends a b → region_extends b c → region_extends a c.
Proof.
  destruct a, b, c; simpl; try done. intros ??. by etrans.
Qed.

Lemma region_extends_hide h c :
  region_extends c (set_region_hidden h <$> c).
Proof. destruct c; simpl; done. Qed.

Lemma renderProducts_monotone pg products w :
  let w' := renderProducts pg products w in
  (hidden w = true → hidden w' = true)
  ∧ region_extends (contentEl w) (contentEl w')
  ∧ ((hidden w' = true ∧ contentEl w' = contentEl w) ∨ hidden w' = hidden w).
Proof.
  intros w'. subst w'.
  destruct (renderProducts_cases pg products w)
    as [-> | [-> | (r & f & Hc & _ & _ & _ & ->)]].
  - split; [done|]. split; [apply region_extends_refl|]. by left.
  - split; [done|]. split; [apply region_extends_refl|]. by right.
  - split; [done|]. split; [|by right].
    rewrite Hc. simpl. by apply prefix_app_r.
Qed.

(** X8. [#renderProducts] writes two things only: the element's [hidden]
    attribute, which it can set but never clears, and the content region,
    to which it can add but from which it never removes.  When it hides
    the element it leaves the region alone.  The cache, the request handle,
    the requests, the attributes, the loading indicator and the console
    are as before. *)
Theorem render_writes_only_hidden_and_content
    (pg : page) (products : list product) (w : widget) :
  let w' := renderProducts pg products w in
  cachedRecommendations w' = cachedRecommendations w
  ∧ activeFetch w' = activeFetch w
  ∧ data w' = data w
  ∧ loadingEl w' = loadingEl w
  ∧ network w' = network w
  ∧ console w' = console w
  ∧ (hidden w = true → hidden w' = true)
  ∧ region_extends (contentEl w) (contentEl w')
  ∧ ((hidden w' = true ∧ contentEl w' = contentEl w) ∨ hidden w' = hidden w).
Proof.
  intros w'.
  destruct (renderProducts_frame pg products w) as (? & ? & ? & ? & ? & ?).
  destruct (renderProducts_monotone pg products w) as (? & ? & ?).
  done.
Qed.

(** How a request ends, whatever came back. *)
Lemma settle_shape pg i o w w' :
  settle pg i o w = Some w' →
  ∃ r, network w !! i = Some r
       ∧ req_settled r = false
       ∧ network w' = alter settle_request i (network w)
       ∧ activeFetch w' = None
       ∧ data w' = data w
       ∧ loadingEl w' = set_hidden_if_present true (loadingEl w)
       ∧ (hidden w = true → hidden w' = true)
       ∧ region_extends (contentEl w) (contentEl w')
       ∧ (cachedRecommendations w' = cachedRecommendations w
          ∨ (req_aborted r = false
             ∧ ∃ status cards products,
                 o = Responded true status cards
                 ∧ products_of_cards cards = Some products
                 ∧ products ≠ []
                 ∧ cachedRecommendations w'
                   = <[req_url r := products]> (cachedRecommendations w))).
Proof.
  unfold settle. destruct (network w !! i) as [r|] eqn:Hr; [|done].
  destruct (req_settled r) eqn:Hs; [done|]. intros [= <-].
  exists r. split; [done|]. split; [done|].
  set (w0 := set_network (alter settle_request i (network w)) w).
  destruct (req_aborted r) eqn:Ha.
  { repeat split; try done; [apply region_extends_refl|by left]. }
  destruct o as [|[] status [|c cs]]; cbn [respond].
  - repeat split; try done; [apply region_extends_refl|by left].
  - repeat split; try done; [apply region_extends_refl|by left].
  - destruct (products_of_cards (c :: cs)) as [products|] eqn:Hcards;
      [|repeat split; try done; [apply region_extends_refl|by left]].
    set (wc := set_cache _ w0).
    destruct (renderProducts_frame pg products wc)
      as (Hcache & _ & Hdata & Hload & Hnet & _).
    destruct (renderProducts_monotone pg products wc) as (Hhid & Hreg & _).
    cbn [finally set_loadingEl set_activeFetch network activeFetch data
         loadingEl hidden contentEl cachedRecommendations].
    rewrite Hcache, Hdata, Hload, Hnet.
    repeat split; try done. right. split; [done|].
    exists status, (c :: cs), products. repeat split; try done.
    by eapply products_of_cards_nonempty.
  - repeat split; try done; [apply region_extends_refl|by left].
  - repeat split; try done; [apply region_extends_refl|by left].
Qed.

End Frames.

(** ** How requests end *)

Section Endings.

(** X9. A request that was not aborted and fails, because [fetch] or the
    reading of the body rejects or because the status is not a success,
    hides the element and logs one error; the cache and the content region
    are as before, the loading indicator is hidden and the handle cleared.
    What a failed response carries as body is not looked at. *)
Theorem failed_request_hides_and_logs
    (pg : page) (i : nat) (w : widget) (r : request) :
  network w !! i = Some r →
  live r →
  ∀ o entry,
    (o = Rejected ∧ entry = Failure
     ∨ ∃ status cards, o = Responded false status cards
                       ∧ entry = ServerReturned status) →
    ∃ w', settle pg i o w = Some w'
          ∧ hidden w' = true
          ∧ console w' = (console w ++ [entry])%list
          ∧ cachedRecommendations w' = cachedRecommendations w
          ∧ contentEl w' = contentEl w
          ∧ loadingEl w' = set_hidden_if_present true (loadingEl w)
          ∧ activeFetch w' = None.
Proof.
  intros Hr [Hs Ha] o entry Ho.
  eexists. split; [by eapply settle_live|].
  destruct Ho as [[-> ->] | (status & cards & -> & ->)]; done.
Qed.

Lemma failed_request_witness :
  ∃ w', settle Sample.empty_cart 0 (Responded false 500 []) Sample.loading = Some w'
        ∧ hidden w' = true
        ∧ console w' = [ServerReturned 500]
        ∧ cachedRecommendations w' = cachedRecommendations Sample.loading
        ∧ contentEl w' = contentEl Sample.loading
        ∧ loadingEl w' = Some true
        ∧ activeFetch w' = None.
Proof.
  apply (failed_request_hides_and_logs Sample.empty_cart 0 Sample.loading
           {| req_url := Sample.key "123"; req_aborted := false;
              req_settled := false |}
           eq_refl (conj eq_refl eq_refl)
           (Responded false 500 []) (ServerReturned 500)).
  right. by exists 500, [].
Defined.

(** X10. An aborted request ends in silence: whatever comes back for it and
    whatever the page holds then, nothing is cached, rendered or logged and
    the element is not hidden; the response is not looked at at all. *)
Theorem aborted_request_ends_in_silence
    (pg : page) (i : nat) (o : outcome) (w : widget) (r : request) :
  network w !! i = Some r →
  req_settled r = false →
  req_aborted r = true →
  ∃ w', settle pg i o w = Some w'
        ∧ (∀ pg' o', settle pg' i o' w = Some w')
        ∧ cachedRecommendations w' = cachedRecommendations w
        ∧ hidden w' = hidden w
        ∧ contentEl w' = contentEl w
        ∧ console w' = console w
        ∧ data w' = data w.
Proof.
  intros Hr Hs Ha. eexists. split; [by eapply settle_aborted|].
  split; [|done]. intros pg' o'. by eapply settle_aborted.
Qed.

Lemma aborted_request_witness :
  ∃ w', settle Sample.empty_cart 0
          (Responded true 200 [Sample.card_for "hat"]) Sample.superseded = Some w'
        ∧ (∀ pg' o', settle pg' 0 o' Sample.superseded = Some w')
        ∧ cachedRecommendations w' = cachedRecommendations Sample.superseded
        ∧ hidden w' = hidden Sample.superseded
        ∧ contentEl w' = contentEl Sample.superseded
        ∧ console w' = console Sample.superseded
        ∧ data w' = data Sample.superseded.
Proof.
  apply (aborted_request_ends_in_silence Sample.empty_cart 0
           (Responded true 200 [Sample.card_for "hat"]) Sample.superseded
           {| req_url := Sample.key "123"; req_aborted := true;
              req_settled := false |}); reflexivity.
Defined.

(** X11. The [finally] block runs on every path: when a request ends, with
    a response, an error or an abort, the loading indicator is hidden if
    there is one, the handle is cleared, the attributes are untouched and
    the only change to the requests is that this one has come back. *)
Theorem every_ending_hides_loading_and_clears_handle
    (pg : page) (i : nat) (o : outcome) (w w' : widget) :
  settle pg i o w = Some w' →
  loadingEl w' = set_hidden_if_present true (loadingEl w)
  ∧ activeFetch w' = None
  ∧ data w' = data w
  ∧ network w' = alter settle_request i (network w)
  ∧ length (network w') = length (network w).
Proof.
  intros Hsettle.
  destruct (settle_shape _ _ _ _ _ Hsettle)
    as (r & _ & _ & Hnet & Hact & Hdata & Hload & _).
  repeat split; try done. by rewrite Hnet, length_alter.
Qed.

Lemma every_ending_witness :
  loadingEl (finally (respond Sample.empty_cart (Sample.key "123") Rejected
               (set_network (alter settle_request 0 (network Sample.loading))
                  Sample.loading)))
  = Some true.
Proof.
  apply (every_ending_hides_loading_and_clears_handle Sample.empty_cart 0
           Rejected Sample.loading _ eq_refl).
Defined.

End Endings.

(** ** What holds in every state the element reaches *)

Section Reachable.

Lemma elem_of_alter_inv {A} (f : A → A) i (l : list A) x :
  x ∈ alter f i l → ∃ y, y ∈ l ∧ (x = y ∨ x = f y).
Proof.
  intros Hx. apply list_elem_of_lookup in Hx as [j Hj].
  rewrite list_lookup_alter in Hj. case_decide as Hij.
  - subst j. destruct (l !! i) as [y|] eqn:Hy; [|done].
    simpl in Hj. injection Hj as <-. exists y. split; [|by right].
    apply list_elem_of_lookup. by exists i.
  - exists x. split; [|by left]. apply list_elem_of_lookup. by exists j.
Qed.

(** What an activation does: nothing to the cache, the attributes and the
    console; and either it issues no request, or it aborts the request of
    the handle and issues one. *)
Lemma connectedCallback_shape pg w :
  let w' := connectedCallback pg w in
  cachedRecommendations w' = cachedRecommendations w
  ∧ data w' = data w
  ∧ console w' = console w
  ∧ (hidden w = true → w' = w)
  ∧ (hidden w = true → hidden w' = true)
  ∧ region_extends (contentEl w) (contentEl w')
  ∧ ((network w' = network w ∧ activeFetch w' = activeFetch w
      ∧ loadingEl w' = loadingEl w)
     ∨ (∃ p u,
          productId (data w) = Some p ∧ url (data w) = Some u
          ∧ JS.truthy_string p = true ∧ JS.truthy_string u = true
          ∧ hidden w = false
          ∧ cachedRecommendations w !! fetchUrl u p (sectionId (data w)) = None
          ∧ network w'
            = (match activeFetch w with
               | Some a => alter abort_request a (network w)
               | None => network w
               end
               ++ [{| req_url := fetchUrl u p (sectionId (data w));
                      req_aborted := false; req_settled := false |}])%list
          ∧ activeFetch w' = Some (length (network w))
          ∧ loadingEl w' = set_hidden_if_present false (loadingEl w)
          ∧ contentEl w' = (set_region_hidden true <$> contentEl w)
          ∧ hidden w' = false)).
Proof.
  intros w'. subst w'. unfold connectedCallback.
  destruct (hidden w) eqn:Hh.
  { cbn [orb]. repeat split; try done; [apply region_extends_refl|by left]. }
  cbn [orb].
  destruct (productId (data w)) as [p|] eqn:Hp; cbn [JS.truthy negb];
    [|rewrite Hh; repeat split; try done; [apply region_extends_refl|by left]].
  destruct (JS.truthy_string p) eqn:Hpt; cbn [negb];
    [|rewrite Hh; repeat split; try done; [apply region_extends_refl|by left]].
  unfold loadRecommendations. rewrite Hp, Hpt. cbn [negb orb].
  destruct (url (data w)) as [u|] eqn:Hu;
    [|repeat split; try done; [apply region_extends_refl|by left]].
  destruct (JS.truthy_string u) eqn:Hut; cbn [negb];
    [|repeat split; try done; [apply region_extends_refl|by left]].
  destruct (cachedRecommendations w !! fetchUrl u p (sectionId (data w)))
    as [products|] eqn:Hc.
  - destruct (renderProducts_frame pg products w) as (? & ? & ? & ? & ? & ?).
    destruct (renderProducts_monotone pg products w) as (? & ? & ?).
    repeat split; try done. by left.
  - unfold start_fetch, abort_active. cbn -[fetchUrl].
    destruct (activeFetch w) as [a|]; cbn -[fetchUrl];
      (repeat split; try done; [apply region_extends_hide|]);
      right; exists p, u; rewrite ?length_alter; done.
Qed.

Lemma created_consistent d h l c : consistent (created d h l c).
Proof.
  split; [|split].
  - intros k ps Hk. cbn [created cachedRecommendations] in Hk.
    by rewrite lookup_empty in Hk.
  - intros i Hi. done.
  - intros r Hr. cbn [created network] in Hr. by apply elem_of_nil in Hr.
Qed.

Lemma activate_consistent pg w :
  consistent w → consistent (connectedCallback pg w).
Proof.
  intros (Hcache & Hhandle & Hurls).
  destruct (connectedCallback_shape pg w)
    as (Hc & _ & _ & _ & _ & _ & [(Hn & Ha & _) | Hmiss]).
  { split; [|split].
    - intros k ps. rewrite Hc, Hn. apply Hcache.
    - intros i. rewrite Ha, Hn. apply Hhandle.
    - intros r. rewrite Hn. apply Hurls. }
  destruct Hmiss as (p & u & _ & _ & Hpt & Hut & _ & _ & Hn & Ha & _).
  set (new := {| req_url := fetchUrl u p (sectionId (data w));
                 req_aborted := false; req_settled := false |}) in *.
  set (old := match activeFetch w with
              | Some a => alter abort_request a (network w)
              | None => network w
              end) in *.
  assert (Hlen : length old = length (network w)).
  { subst old. destruct (activeFetch w); [apply length_alter|done]. }
  split; [|split].
  - intros k ps Hk. rewrite Hc in Hk.
    destruct (Hcache k ps Hk) as (Hne & Hcards & j & r & Hj & Hurl & Hans).
    split; [done|]. split; [done|]. exists j, r. split; [|done].
    rewrite Hn, lookup_app_l by (rewrite Hlen; by eapply lookup_lt_Some).
    subst old. destruct (activeFetch w) as [a|] eqn:Hact; [|done].
    rewrite list_lookup_alter_ne; [done|]. intros ->.
    destruct (Hhandle j Hact) as (_ & r' & Hr' & Hs' & _).
    rewrite Hj in Hr'. injection Hr' as <-. destruct Hans as [Hs _]. congruence.
  - intros i Hi. rewrite Ha in Hi. injection Hi as <-.
    rewrite Hn, length_app, Hlen. split; [simpl; lia|].
    exists new. split; [|done].
    rewrite lookup_app_r by lia. by rewrite Hlen, Nat.sub_diag.
  - intros r Hr. rewrite Hn in Hr. apply elem_of_app in Hr as [Hr|Hr].
    + assert (Hold : ∃ y, y ∈ network w ∧ req_url r = req_url y).
      { subst old. destruct (activeFetch w) as [a|].
        - apply elem_of_alter_inv in Hr as (y & Hy & [-> | ->]); by exists y.
        - by exists r. }
      destruct Hold as (y & Hy & ->). by apply Hurls.
    + apply list_elem_of_singleton in Hr as ->.
      by exists u, p, (sectionId (data w)).
Qed.

Lemma settle_consistent pg i o w w' :
  consistent w → settle pg i o w = Some w' → consistent w'.
Proof.
  intros (Hcache & Hhandle & Hurls) Hsettle.
  destruct (settle_shape _ _ _ _ _ Hsettle)
    as (r & Hr & Hs & Hn & Ha & _ & _ & _ & _ & Hc).
  assert (Hkeep : ∀ k ps, cachedRecommendations w !! k = Some ps →
            ps ≠ [] ∧ (∃ cards, products_of_cards cards = Some ps)
            ∧ ∃ j r', network w' !! j = Some r' ∧ req_url r' = k ∧ answered r').
  { intros k ps Hk.
    destruct (Hcache k ps Hk) as (Hne & Hcards & j & r' & Hj & Hurl & Hans).
    split; [done|]. split; [done|].
    rewrite Hn. destruct (decide (i = j)) as [->|Hij].
    - exists j, (settle_request r'). rewrite list_lookup_alter_eq, Hj.
      split; [done|]. split; [done|]. destruct Hans. by split.
    - exists j, r'. by rewrite list_lookup_alter_ne. }
  split; [|split].
  - intros k ps Hk.
    destruct Hc as [Hc | (Hab & status & cards & products & _ & Hcards & Hnil & Hc)].
    + rewrite Hc in Hk. by apply Hkeep.
    + rewrite Hc in Hk. destruct (decide (req_url r = k)) as [<-|Hne].
      * rewrite lookup_insert_eq in Hk. injection Hk as <-.
        split; [done|]. split; [by exists cards|].
        exists i, (settle_request r). rewrite Hn, list_lookup_alter_eq, Hr.
        done.
      * rewrite lookup_insert_ne in Hk by done. by apply Hkeep.
  - intros j Hj. by rewrite Ha in Hj.
  - intros r' Hr'. rewrite Hn in Hr'.
    apply elem_of_alter_inv in Hr' as (y & Hy & [-> | ->]);
      destruct (Hurls y Hy) as (u & p & section & ? & ? & ?);
      by exists u, p, section.
Qed.

Lemma step_consistent e w w' :
  consistent w → step e w = Some w' → consistent w'.
Proof.
  intros Hw. destruct e as [pg | pg i o | d]; simpl.
  - intros [= <-]. by apply activate_consistent.
  - by apply settle_consistent.
  - intros [= <-]. exact Hw.
Qed.

Lemma run_consistent es w w' :
  consistent w → run es w = Some w' → consistent w'.
Proof.
  revert w. induction es as [|e es IH]; intros w Hw; simpl.
  - by intros [= <-].
  - destruct (step e w) as [w1|] eqn:He; [|done].
    apply IH. by eapply step_consistent.
Qed.

(** X12. In every state the element reaches from its creation, each cache
    entry is a non-empty sequence of products built from cards, and its key
    is the URL of a request that came back and was never aborted: nothing
    gets into the cache from an aborted or a pending request, and the empty
    sequence is never cached. *)
Theorem reachable_cache_entries_come_from_answered_requests
    (d : dataset) (h : bool) (loading : option bool) (content : option region)
    (es : list event) (w : widget) :
  run es (created d h loading content) = Some w →
  ∀ k ps, cachedRecommendations w !! k = Some ps →
    ps ≠ []
    ∧ (∃ cards, products_of_cards cards = Some ps)
    ∧ ∃ i r, network w !! i = Some r ∧ req_url r = k
             ∧ req_settled r = true ∧ req_aborted r = false.
Proof.
  intros Hrun.
  exact (proj1 (run_consistent es _ w (created_consistent d h loading content) Hrun)).
Qed.

Lemma reachable_cache_witness :
  ∃ w, run Trace.browse (Sample.fresh (Sample.recs "123" None)) = Some w
       ∧ ∀ k ps, cachedRecommendations w !! k = Some ps →
           ps ≠ []
           ∧ (∃ cards, products_of_cards cards = Some ps)
           ∧ ∃ i r, network w !! i = Some r ∧ req_url r = k
                    ∧ req_settled r = true ∧ req_aborted r = false.
Proof.
  eexists. split; [reflexivity|].
  apply (reachable_cache_entries_come_from_answered_requests
           (Sample.recs "123" None) false (Some true)
           (Some {| region_hidden := true; region_children := [] |})
           Trace.browse).
  reflexivity.
Defined.

(** X13. In every state the element reaches, the handle, when there is one,
    is that of the request issued last, and this request is in flight and
    was not aborted: the handle never outlives its request. *)
Theorem reachable_handle_is_the_last_request_and_live
    (d : dataset) (h : bool) (loading : option bool) (content : option region)
    (es : list event) (w : widget) :
  run es (created d h loading content) = Some w →
  ∀ i, activeFetch w = Some i →
    S i = length (network w)
    ∧ ∃ r, network w !! i = Some r
           ∧ req_settled r = false ∧ req_aborted r = false.
Proof.
  intros Hrun.
  exact (proj1 (proj2 (run_consistent es _ w
                         (created_consistent d h loading content) Hrun))).
Qed.

Lemma reachable_handle_witness :
  S 1 = length (network Sample.superseded)
  ∧ ∃ r, network Sample.superseded !! 1 = Some r
         ∧ req_settled r = false ∧ req_aborted r = false.
Proof.
  apply (reachable_handle_is_the_last_request_and_live
           (Sample.recs "123" None) false (Some true)
           (Some {| region_hidden := true; region_children := [] |})
           [Activate Sample.empty_cart;
            SetAttributes (Sample.recs "456" None);
            Activate Sample.empty_cart]
           Sample.superseded eq_refl 1 eq_refl).
Defined.

(** X14. Every request the element ever issues goes to the URL made of a
    non-empty [data-url], a non-empty [data-product-id], the section id or
    its default, and the fixed intent: no request leaves with the item or
    the endpoint missing. *)
Theorem reachable_requests_carry_item_and_endpoint
    (d : dataset) (h : bool) (loading : option bool) (content : option region)
    (es : list event) (w : widget) :
  run es (created d h loading content) = Some w →
  ∀ r, r ∈ network w →
    ∃ u p section,
      u ≠ "" ∧ p ≠ ""
      ∧ req_url r
        = u ++ "&product_id=" ++ p ++ "&section_id="
            ++ JS.or_else section "cart-upsells" ++ "&intent=complementary"
      ∧ JS.or_else section "cart-upsells" ≠ "".
Proof.
  intros Hrun r Hr.
  destruct (proj2 (proj2 (run_consistent es _ w
                            (created_consistent d h loading content) Hrun)) r Hr)
    as (u & p & section & Hu & Hp & Hurl).
  exists u, p, section.
  split; [by destruct u|]. split; [by destruct p|]. split; [exact Hurl|].
  destruct section as [[|c s]|]; done.
Qed.

Lemma reachable_requests_witness :
  ∃ u p section,
    u ≠ "" ∧ p ≠ ""
    ∧ Sample.key "123"
      = u ++ "&product_id=" ++ p ++ "&section_id="
          ++ JS.or_else section "cart-upsells" ++ "&intent=complementary"
    ∧ JS.or_else section "cart-upsells" ≠ "".
Proof.
  apply (reachable_requests_carry_item_and_endpoint
           (Sample.recs "123" None) false (Some true)
           (Some {| region_hidden := true; region_children := [] |})
           [Activate Sample.empty_cart] Sample.loading eq_refl
           {| req_url := Sample.key "123"; req_aborted := false;
              req_settled := false |}).
  apply list_elem_of_singleton. reflexivity.
Defined.

End Reachable.

(** ** What never happens over a run *)

Section Runs.

Lemma fmap_alter_preserved {A B} (g : A → B) (f : A → A) i (l : list A) :
  (∀ x, g (f x) = g x) → g <$> alter f i l = g <$> l.
Proof.
  intros Hg. apply list_eq. intros j.
  rewrite !list_lookup_fmap, list_lookup_alter. case_decide as Hij; [|done].
  subst j. destruct (l !! i); simpl; [|done]. by rewrite Hg.
Qed.

Lemma is_Some_set_hidden_if_present h el :
  is_Some (set_hidden_if_present h el) ↔ is_Some el.
Proof. destruct el; simpl; split; intros [? ?]; eauto. Qed.

(** X15. A hidden element stays hidden and stays quiet: no event clears the
    [hidden] attribute, and while the element is hidden its activations
    issue no request and abort none.  Requests already in flight still come
    back. *)
Theorem hidden_element_stays_hidden_and_issues_nothing
    (es : list event) (w w' : widget) :
  hidden w = true →
  run es w = Some w' →
  hidden w' = true
  ∧ req_url <$> network w' = req_url <$> network w
  ∧ req_aborted <$> network w' = req_aborted <$> network w.
Proof.
  revert w. induction es as [|e es IH]; intros w Hh; simpl.
  - by intros [= <-].
  - destruct (step e w) as [w1|] eqn:He; [|done]. intros Hrun.
    assert (H1 : hidden w1 = true
                 ∧ req_url <$> network w1 = req_url <$> network w
                 ∧ req_aborted <$> network w1 = req_aborted <$> network w).
    { destruct e as [pg | pg i o | d]; simpl in He.
      - injection He as <-.
        destruct (connectedCallback_shape pg w) as (_ & _ & _ & Hsame & _).
        by rewrite (Hsame Hh).
      - destruct (settle_shape _ _ _ _ _ He)
          as (r & _ & _ & Hn & _ & _ & _ & Hhid & _).
        split; [by apply Hhid|]. rewrite Hn.
        split; by apply fmap_alter_preserved.
      - by injection He as <-. }
    destruct H1 as (Hh1 & Hu1 & Ha1).
    destruct (IH w1 Hh1 Hrun) as (? & Hu & Ha).
    split; [done|]. by rewrite Hu, Ha.
Qed.

Lemma hidden_element_witness :
  ∃ w', run [Activate Sample.empty_cart;
             SetAttributes (Sample.recs "456" None);
             Activate Sample.empty_cart]
          (set_hidden true Sample.loading) = Some w'
        ∧ hidden w' = true
        ∧ req_url <$> network w' = [Sample.key "123"]
        ∧ req_aborted <$> network w' = [false].
Proof.
  eexists. split; [reflexivity|].
  apply (hidden_element_stays_hidden_and_issues_nothing
           [Activate Sample.empty_cart;
            SetAttributes (Sample.recs "456" None);
            Activate Sample.empty_cart]
           (set_hidden true Sample.loading)); reflexivity.
Defined.

(** X16. Nothing is ever taken out of the content region: over any run, the
    region holds at the end what it held at the start, in the same order,
    and whatever was added comes after.  The region and the loading
    indicator are neither created nor removed. *)
Theorem content_region_only_grows (es : list event) (w w' : widget) :
  run es w = Some w' →
  region_extends (contentEl w) (contentEl w')
  ∧ (is_Some (contentEl w) ↔ is_Some (contentEl w'))
  ∧ (is_Some (loadingEl w) ↔ is_Some (loadingEl w')).
Proof.
  assert (Hpresent : ∀ a b, region_extends a b → (is_Some a ↔ is_Some b)).
  { intros [a|] [b|]; simpl; try done; split; intros [? ?]; eauto; done. }
  intros Hrun.
  cut (region_extends (contentEl w) (contentEl w')
       ∧ (is_Some (loadingEl w) ↔ is_Some (loadingEl w'))).
  { intros [Hr Hl]. split; [done|]. split; [by apply Hpresent|done]. }
  revert w Hrun. induction es as [|e es IH]; intros w; simpl.
  - intros [= <-]. split; [apply region_extends_refl|done].
  - destruct (step e w) as [w1|] eqn:He; [|done]. intros Hrun.
    destruct (IH w1 Hrun) as [Hr Hl].
    assert (H1 : region_extends (contentEl w) (contentEl w1)
                 ∧ (is_Some (loadingEl w) ↔ is_Some (loadingEl w1))).
    { destruct e as [pg | pg i o | d]; simpl in He.
      - injection He as <-.
        destruct (connectedCallback_shape pg w)
          as (_ & _ & _ & _ & _ & Hreg & [(_ & _ & Hload) | Hmiss]).
        + split; [done|]. by rewrite Hload.
        + destruct Hmiss as (p & u & _ & _ & _ & _ & _ & _ & _ & _ & Hload & _).
          split; [done|]. rewrite Hload.
          symmetry. apply is_Some_set_hidden_if_present.
      - destruct (settle_shape _ _ _ _ _ He)
          as (r & _ & _ & _ & _ & _ & Hload & _ & Hreg & _).
        split; [done|]. rewrite Hload.
        symmetry. apply is_Some_set_hidden_if_present.
      - injection He as <-. split; [apply region_extends_refl|done]. }
    destruct H1 as [Hr1 Hl1]. split.
    + by eapply region_extends_trans.
    + by rewrite Hl1.
Qed.

Lemma content_region_witness :
  ∃ w', run Trace.browse (Sample.fresh (Sample.recs "123" None)) = Some w'
        ∧ region_extends
            (Some {| region_hidden := true; region_children := [] |})
            (contentEl w')
        ∧ (is_Some (Some {| region_hidden := true; region_children := [] |})
           ↔ is_Some (contentEl w'))
        ∧ (is_Some (Some true) ↔ is_Some (loadingEl w')).
Proof.
  eexists. split; [reflexivity|].
  apply (content_region_only_grows Trace.browse
           (Sample.fresh (Sample.recs "123" None))).
  reflexivity.
Defined.

(** X17. The cache only grows: over any run every key that was cached
    stays cached, nothing is evicted.  Only a response writes to it: a run
    of activations and attribute changes alone leaves the cache exactly as
    it was. *)
Theorem cache_only_grows (es : list event) (w w' : widget) :
  run es w = Some w' →
  dom (cachedRecommendations w) ⊆ dom (cachedRecommendations w')
  ∧ (Forall (λ e, match e with Settle _ _ _ => False | _ => True end) es →
     cachedRecommendations w' = cachedRecommendations w).
Proof.
  revert w. induction es as [|e es IH]; intros w; simpl.
  - by intros [= <-].
  - destruct (step e w) as [w1|] eqn:He; [|done]. intros Hrun.
    destruct (IH w1 Hrun) as [Hdom Hsame].
    destruct e as [pg | pg i o | d]; simpl in He.
    + injection He as <-.
      destruct (connectedCallback_shape pg w) as (Hc & _).
      rewrite Hc in *. split; [done|].
      intros Hes. apply Hsame. by inversion Hes.
    + split; [|by inversion 1].
      destruct (settle_shape _ _ _ _ _ He)
        as (r & _ & _ & _ & _ & _ & _ & _ & _ & Hc).
      etrans; [|exact Hdom].
      destruct Hc as [-> | (_ & status & cards & products & _ & _ & _ & ->)];
        [done|].
      apply dom_insert_subseteq.
    + injection He as <-. split; [done|].
      intros Hes. apply Hsame. by inversion Hes.
Qed.

Lemma cache_only_grows_witness :
  ∃ w', run Trace.browse (Sample.fresh (Sample.recs "123" None)) = Some w'
        ∧ dom (cachedRecommendations (Sample.fresh (Sample.recs "123" None)))
            ⊆ dom (cachedRecommendations w')
        ∧ (Forall (λ e, match e with Settle _ _ _ => False | _ => True end)
             Trace.browse →
           cachedRecommendations w'
           = cachedRecommendations (Sample.fresh (Sample.recs "123" None))).
Proof.
  eexists. split; [reflexivity|].
  apply (cache_only_grows Trace.browse (Sample.fresh (Sample.recs "123" None))).
  reflexivity.
Defined.

End Runs.

(** ** Starting a request *)

Section Starting.

Lemma filter_alter_length {A} (P : A → bool) (f : A → A) i (l : list A) :
  (∀ x, P (f x) = P x) →
  length (List.filter P (alter f i l)) = length (List.filter P l).
Proof.
  intros HP. revert i. induction l as [|x l IH]; intros i; [done|].
  destruct i as [|i].
  - change (alter f 0 (x :: l)) with (f x :: l). cbn [List.filter].
    rewrite HP. by destruct (P x).
  - change (alter f (S i) (x :: l)) with (x :: alter f i l). cbn [List.filter].
    destruct (P x); cbn [length]; by rewrite IH.
Qed.

(** X18. An activation that finds its key missing from the cache shows the
    loading indicator, hides the content region without emptying it,
    aborts the request of the handle if there is one, and issues exactly
    one request, to the key's URL, whose handle it keeps.  The other
    requests, the cache, the console and the element's own [hidden]
    attribute are untouched. *)
Theorem cache_miss_starts_one_request_and_aborts_the_active
    (pg : page) (w : widget) (p u : string) :
  hidden w = false →
  productId (data w) = Some p →
  url (data w) = Some u →
  JS.truthy_string p = true →
  JS.truthy_string u = true →
  cachedRecommendations w !! fetchUrl u p (sectionId (data w)) = None →
  let k := fetchUrl u p (sectionId (data w)) in
  let w' := connectedCallback pg w in
  network w'
  = (match activeFetch w with
     | Some a => alter abort_request a (network w)
     | None => network w
     end
     ++ [{| req_url := k; req_aborted := false; req_settled := false |}])%list
  ∧ activeFetch w' = Some (length (network w))
  ∧ requests_for k w' = S (requests_for k w)
  ∧ loadingEl w' = set_hidden_if_present false (loadingEl w)
  ∧ contentEl w' = (set_region_hidden true <$> contentEl w)
  ∧ cachedRecommendations w' = cachedRecommendations w
  ∧ hidden w' = false
  ∧ console w' = console w
  ∧ data w' = data w.
Proof.
  intros Hh Hp Hu Hpt Hut Hc k w'.
  assert (Hw' : w' = start_fetch k
            (abort_active
               (set_contentEl (set_region_hidden true <$> contentEl w)
                  (set_loadingEl (set_hidden_if_present false (loadingEl w)) w)))).
  { subst w' k. unfold connectedCallback, loadRecommendations.
    rewrite Hh, Hp, Hu. cbn [JS.truthy]. by rewrite Hpt, Hut, Hc. }
  assert (Hn : network w'
    = (match activeFetch w with
       | Some a => alter abort_request a (network w)
       | None => network w
       end
       ++ [{| req_url := k; req_aborted := false; req_settled := false |}])%list).
  { rewrite Hw'. unfold start_fetch, abort_active. cbn -[fetchUrl].
    by destruct (activeFetch w). }
  split; [done|].
  split.
  { rewrite Hw'. unfold start_fetch, abort_active. cbn -[fetchUrl].
    destruct (activeFetch w); cbn -[fetchUrl]; by rewrite ?length_alter. }
  split.
  { unfold requests_for. rewrite Hn, List.filter_app, length_app.
    cbn [List.filter req_url]. rewrite String.eqb_refl. cbn [length].
    destruct (activeFetch w) as [a|]; [|lia].
    rewrite filter_alter_length by done. lia. }
  rewrite Hw'. unfold start_fetch, abort_active. cbn -[fetchUrl].
  destruct (activeFetch w); cbn -[fetchUrl]; by rewrite ?Hh.
Qed.

Lemma cache_miss_witness :
  network Sample.superseded
  = [{| req_url := Sample.key "123"; req_aborted := true; req_settled := false |};
     {| req_url := Sample.key "456"; req_aborted := false; req_settled := false |}]
  ∧ activeFetch Sample.superseded = Some 1
  ∧ requests_for (Sample.key "456") Sample.superseded = 1.
Proof.
  destruct (cache_miss_starts_one_request_and_aborts_the_active
              Sample.empty_cart
              (setAttributes (Sample.recs "456" None) Sample.loading)
              "456" "/recs?v=1"
              eq_refl eq_refl eq_refl eq_refl eq_refl eq_refl)
    as (Hn & Ha & Hk & _).
  split; [exact Hn|]. split; [exact Ha|exact Hk].
Defined.

End Starting.

(** ** The cached sequence, over a run *)

Section Reuse.








(** Why the proviso: when two requests for one key are in flight at once,
    the response that comes back last is the one that stays cached. *)
Example later_answer_for_the_same_key_replaces_the_cached_sequence :
  ∃ w', run Trace.two_answers (Sample.fresh (Sample.recs "123" None)) = Some w'
        ∧ requests_for (Sample.key "456") w' = 2
        ∧ cachedRecommendations w' !! Sample.key "456" = Some [Trace.scarf].
Proof.
  eexists. split; [vm_compute; reflexivity|]. split; vm_compute; reflexivity.
Qed.

End Reuse.
